(** * 3DTypeShaper: sampling, normalisation, hover field and auto motion

    A shallow embedding of the point pipeline of the 3DTypeShaper tool:

    - [js/svg/SVGPointSampler.js]: [SVGShapeParser] (shape elements to path
      data), [SVGPointSampler.removeOverlapping] and
      [SVGCoordinateNormalizer.normalize];
    - the main script: [getTextPoints], [getHoverScale3D] and
      [getAutoPosition].

    JavaScript numbers are idealised.  The SVG and raster code uses only
    field operations, comparisons and [Math.floor], and is modelled over
    the rationals [Q], where every definition computes.  The hover and
    auto-motion code calls [Math.sqrt], [Math.sin] and [Math.cos] and is
    modelled over the reals [R].  Rounding, infinities and NaN of IEEE
    doubles are outside the model, with three exceptions that the code
    depends on: where the parser meets NaN ([parseFloat] of a missing
    attribute), it is modelled explicitly; the loop variables of the scan
    of [getTextPoints] are advanced by the rounded sum of doubles
    ([Raster.NumberSum], [Raster.doubles]); and the re-roll interval
    [3000 / autoSpeed] of the random pattern is [Infinity] for
    [autoSpeed = 0].

    A JavaScript string is modelled by [string], the list of its UTF-16
    code units, for strings whose code units are below 256. *)

From Stdlib Require Import ZArith QArith Qminmax Qround Qabs Qpower.
From Stdlib Require Import Reals Psatz.
From Stdlib Require Import List String Ascii Bool Lia.
From Stdlib Require Import DecimalString.
Import ListNotations.

Local Open Scope Q_scope.

(** ** Points, view boxes and canvas sizes *)

(** A sample point in SVG user space, [{x, y}]. *)
Module P2.
Record t : Set := mk { x : Q; y : Q }.
End P2.

(** A point of the output coordinate system, [{x, y, z}]. *)
Module P3.
Record t : Set := mk { x : Q; y : Q; z : Q }.

(** Component-wise equality of rationals. *)
Definition eq (p q : t) : Prop := x p == x q /\ y p == y q /\ z p == z q.
End P3.

Module ViewBox.
Record t : Set := mk { minX : Q; minY : Q; width : Q; height : Q }.
End ViewBox.

Module Size.
Record t : Set := mk { width : Q; height : Q }.
End Size.

(** ** SVGCoordinateNormalizer *)

Module SVGCoordinateNormalizer.

(** The [options] object: a missing property is [None] and takes the
    default of the destructuring pattern. *)
Record Options : Set := mkOptions {
  fitMode : option string;
  padding : option Q;
  offsetX : option Q;
  offsetY : option Q
}.

Definition orDefault {A : Type} (d : A) (o : option A) : A :=
  match o with Some v => v | None => d end.

(** The [switch (fitMode)]: the pair [(scaleX, scaleY)]. *)
Definition scales (fitMode : string) (effectiveWidth effectiveHeight : Q)
    (svgViewBox : ViewBox.t) : Q * Q :=
  if String.eqb fitMode "contain" then
    let containScale :=
      Qmin (effectiveWidth / ViewBox.width svgViewBox)
           (effectiveHeight / ViewBox.height svgViewBox) in
    (containScale, containScale)
  else if String.eqb fitMode "cover" then
    let coverScale :=
      Qmax (effectiveWidth / ViewBox.width svgViewBox)
           (effectiveHeight / ViewBox.height svgViewBox) in
    (coverScale, coverScale)
  else if String.eqb fitMode "stretch" then
    (effectiveWidth / ViewBox.width svgViewBox,
     effectiveHeight / ViewBox.height svgViewBox)
  else (1, 1).

(** The body of [points.map(point => ...)]. *)
Definition transformPoint (svgCenterX svgCenterY scaleX scaleY
    offsetPxX offsetPxY : Q) (point : P2.t) : P3.t :=
  let x := (P2.x point - svgCenterX) * scaleX in
  let y := (P2.y point - svgCenterY) * scaleY in
  let y := - y in
  let x := x + offsetPxX in
  let y := y + offsetPxY in
  P3.mk x y 0.

Definition normalize (points : list P2.t) (svgViewBox : ViewBox.t)
    (canvasSize : Size.t) (options : Options) : list P3.t :=
  let fitMode := orDefault "contain"%string (fitMode options) in
  let padding := orDefault (1 # 10) (padding options) in
  let offsetX := orDefault 0 (offsetX options) in
  let offsetY := orDefault 0 (offsetY options) in
  if Nat.eqb (List.length points) 0 then []
  else
    let effectiveWidth := Size.width canvasSize * (1 - padding * 2) in
    let effectiveHeight := Size.height canvasSize * (1 - padding * 2) in
    let '(scaleX, scaleY) :=
      scales fitMode effectiveWidth effectiveHeight svgViewBox in
    let svgCenterX := ViewBox.minX svgViewBox + ViewBox.width svgViewBox / 2 in
    let svgCenterY := ViewBox.minY svgViewBox + ViewBox.height svgViewBox / 2 in
    let offsetPxX := (offsetX / 100) * Size.width canvasSize in
    let offsetPxY := (offsetY / 100) * Size.height canvasSize in
    map (transformPoint svgCenterX svgCenterY scaleX scaleY offsetPxX offsetPxY)
        points.

(** The bounding box of an output point cloud: the extent between the
    least and the greatest coordinate (0 for the empty cloud). *)
Definition extent (l : list Q) : Q :=
  match l with
  | [] => 0
  | a :: r => fold_right Qmax a r - fold_right Qmin a r
  end.

Definition bboxWidth (pts : list P3.t) : Q := extent (map P3.x pts).
Definition bboxHeight (pts : list P3.t) : Q := extent (map P3.y pts).

(** The padded canvas rectangle, centred at the origin of the output
    coordinate system. *)
Definition inPaddedCanvas (canvasSize : Size.t) (padding : Q) (p : P3.t) : Prop :=
  Qabs (P3.x p) <= Size.width canvasSize * (1 - padding * 2) / 2 /\
  Qabs (P3.y p) <= Size.height canvasSize * (1 - padding * 2) / 2.

(** The same rectangle moved by the pixel offset. *)
Definition inPaddedCanvasAt (canvasSize : Size.t) (padding ox oy : Q)
    (p : P3.t) : Prop :=
  Qabs (P3.x p - ox) <= Size.width canvasSize * (1 - padding * 2) / 2 /\
  Qabs (P3.y p - oy) <= Size.height canvasSize * (1 - padding * 2) / 2.

(** A source point inside the view box rectangle. *)
Definition inViewBox (vb : ViewBox.t) (p : P2.t) : Prop :=
  ViewBox.minX vb <= P2.x p <= ViewBox.minX vb + ViewBox.width vb /\
  ViewBox.minY vb <= P2.y p <= ViewBox.minY vb + ViewBox.height vb.

(** The claim of the specification about the contain mode, at one input:
    the bounding box fits the padded canvas and every point is inside it. *)
Definition containFits (points : list P2.t) (vb : ViewBox.t) (cs : Size.t)
    (pad : Q) (options : Options) : Prop :=
  let out := normalize points vb cs options in
  bboxWidth out <= Size.width cs * (1 - 2 * pad) /\
  bboxHeight out <= Size.height cs * (1 - 2 * pad) /\
  Forall (inPaddedCanvas cs pad) out.

End SVGCoordinateNormalizer.

(** ** SVGPointSampler.removeOverlapping *)

Module SVGPointSampler.

(** The test of the inner loop: [dx * dx + dy * dy < minDistSq]. *)
Definition closer (minDistSq : Q) (point existing : P2.t) : bool :=
  let dx := P2.x point - P2.x existing in
  let dy := P2.y point - P2.y existing in
  if Qlt_le_dec (dx * dx + dy * dy) minDistSq then true else false.

(** The [for (let existing of result)] loop with its [break]: whether some
    retained point is too close. *)
Definition tooClose (minDistSq : Q) (result : list P2.t) (point : P2.t) : bool :=
  existsb (closer minDistSq point) result.

(** One turn of [points.forEach]: [result.push(point)] unless too close. *)
Definition visit (minDistSq : Q) (result : list P2.t) (point : P2.t) : list P2.t :=
  if tooClose minDistSq result point then result else result ++ [point].

Definition removeOverlapping (points : list P2.t) (minDistance : Q) : list P2.t :=
  let minDistSq := minDistance * minDistance in
  fold_left (visit minDistSq) points [].

(** The last step of [sampleAllPaths], on the accumulated points. *)
Definition mergeStep (mergeOverlapping : bool) (allPoints : list P2.t)
    (spacing : Q) : list P2.t :=
  if mergeOverlapping && negb (Nat.eqb (List.length allPoints) 0)
  then removeOverlapping allPoints (spacing / 2)
  else allPoints.

(** Squared distance between two sample points. *)
Definition distSq (p q : P2.t) : Q :=
  (P2.x p - P2.x q) * (P2.x p - P2.x q) + (P2.y p - P2.y q) * (P2.y p - P2.y q).

(** [l] keeps some of the elements of [m], in the order of [m]. *)
Inductive Subseq {A : Type} : list A -> list A -> Prop :=
| Subseq_nil : Subseq [] []
| Subseq_skip : forall a l m, Subseq l m -> Subseq l (a :: m)
| Subseq_keep : forall a l m, Subseq l m -> Subseq (a :: l) (a :: m).

(** Every two points at different positions of [l] are at squared distance
    at least [d2]. *)
Definition Spread (d2 : Q) (l : list P2.t) : Prop :=
  forall i j p q, i <> j -> nth_error l i = Some p -> nth_error l j = Some q ->
    d2 <= distSq p q.

(** The claim of the specification about the order of the scan, at one
    input: of two input points that conflict, the one seen first is
    retained. *)
Definition firstSeenRetained (points : list P2.t) (s : Q) : Prop :=
  forall i j p q, (i < j)%nat ->
    nth_error points i = Some p -> nth_error points j = Some q ->
    distSq p q < (s / 2) * (s / 2) ->
    In p (removeOverlapping points (s / 2)).

End SVGPointSampler.

(** ** getTextPoints: the raster sampler *)

Module Raster.

(** The fields of [textData] that [getTextPoints] reads. *)
Record TextData : Set := mkTextData {
  fontFamily : string;
  lineHeight : Q;
  textOffsetX : Q;
  textOffsetY : Q
}.

(** The font set on the temporary context: [bold ${fontSize}px ${fontFamily},
    sans-serif], centred, middle baseline, white fill. *)
Record Font : Set := mkFont { fontPx : Q; family : string }.

(** The part of the canvas 2D API the sampler uses.  The browser implements
    it; the sampler only creates a canvas of a given size, draws lines of
    text at a position and reads the RGBA bytes back. *)
Class Canvas2D (ctx : Type) : Type := {
  createCanvas : Z -> Z -> ctx;
  fillText : ctx -> Font -> string -> Q -> Q -> ctx;
  getImageData : ctx -> list Z
}.

(** [text.split(sep)] for a one-character [sep]; [acc] is the line being
    read. *)
Fixpoint splitOn (sep : ascii) (acc : string) (s : string) : list string :=
  match s with
  | EmptyString => [acc]
  | String c r =>
      if Ascii.eqb c sep then acc :: splitOn sep EmptyString r
      else splitOn sep (acc ++ String c EmptyString) r
  end.

Definition newline : ascii := Ascii.ascii_of_nat 10.

Definition splitLines (text : string) : list string :=
  splitOn newline EmptyString text.

(** [lines.forEach((line, index) => ...)], from [index] on. *)
Fixpoint drawLines {ctx : Type} `{Canvas2D ctx} (c : ctx) (font : Font)
    (centerX startY lineHeightPixels : Q) (index : nat) (lines : list string) : ctx :=
  match lines with
  | [] => c
  | line :: rest =>
      let y := startY + inject_Z (Z.of_nat index) * lineHeightPixels in
      drawLines (fillText c font line centerX y) font centerX startY
                lineHeightPixels (S index) rest
  end.

(** The first half of [getTextPoints]: the temporary canvas with the text
    drawn on it. *)
Definition renderText {ctx : Type} `{Canvas2D ctx} (textData : TextData)
    (canvasWidth canvasHeight : Z) (text : string) (fontSize : Q) : ctx :=
  let tempCanvas := createCanvas canvasWidth canvasHeight in
  let font := mkFont fontSize (fontFamily textData) in
  let lines := splitLines text in
  let lineHeightPixels := fontSize * lineHeight textData in
  let totalTextHeight :=
    fontSize + (inject_Z (Z.of_nat (List.length lines)) - 1) * lineHeightPixels in
  let offsetX := (textOffsetX textData / 100) * inject_Z canvasWidth in
  let offsetY := (textOffsetY textData / 100) * inject_Z canvasHeight in
  let startY :=
    (inject_Z canvasHeight / 2) - (totalTextHeight / 2) + (fontSize / 2) + offsetY in
  let centerX := (inject_Z canvasWidth / 2) + offsetX in
  drawLines tempCanvas font centerX startY lineHeightPixels 0 lines.

(** [data[index + 3]] for [index = (py * width + px) * 4]; [None] is
    [undefined]. *)
Definition alphaAt (data : list Z) (width px py : Z) : option Z :=
  let index := ((py * width + px) * 4)%Z in
  nth_error data (Z.to_nat (index + 3)).

(** [alpha > 128]; [undefined > 128] is false. *)
Definition opaque (alpha : option Z) : bool :=
  match alpha with
  | Some a => (a >? 128)%Z
  | None => false
  end.

(** The test of the loop body,
    [px >= 0 && px < width && py >= 0 && py < height]. *)
Definition inCanvas (width height px py : Z) : bool :=
  ((px >=? 0) && (px <? width) && (py >=? 0) && (py <? height))%Z.

(** The body of the inner loop at the loop variables [x], [y]. *)
Definition samplePixel (data : list Z) (width height : Z) (x y : Q) : list P3.t :=
  let px := Qfloor x in
  let py := Qfloor y in
  if inCanvas width height px py then
    if opaque (alphaAt data width px py) then
      [P3.mk (inject_Z px - inject_Z width / 2)
             (inject_Z height / 2 - inject_Z py) 0]
    else []
  else [].

(** The sum of two numbers as [v += step] computes it.  JavaScript rounds
    the exact sum to the nearest double, so the loop variable need not be
    a multiple of the step, and where adding the step no longer changes
    it the loop does not end.  The scan is modelled over any such sum;
    [doubles] below is the sum of IEEE 754 binary64. *)
Class NumberSum : Type := { addNum : Q -> Q -> Q }.

Section Scan.
Context {numbers : NumberSum}.

(** [for (let v = v0; v < bound; v += step) body(v)], collecting what the
    bodies push.  [None]: the loop, or a body, has not ended after [fuel]
    turns. *)
Fixpoint forLoop {A : Type} (fuel : nat) (bound step : Q)
    (body : Q -> option (list A)) (v : Q) : option (list A) :=
  match fuel with
  | O => None
  | S fuel' =>
      if Qlt_le_dec v bound then
        match body v with
        | Some here =>
            match forLoop fuel' bound step body (addNum v step) with
            | Some rest => Some (here ++ rest)
            | None => None
            end
        | None => None
        end
      else Some []
  end.

(** The values the loop variable takes in the turns of the loop. *)
Definition loopValues (fuel : nat) (bound step v : Q) : option (list Q) :=
  forLoop fuel bound step (fun u => Some [u]) v.

(** The loop from 0 ends within [fuel] turns. *)
Definition loopEnds (fuel : nat) (bound step : Q) : bool :=
  match loopValues fuel bound step 0 with
  | Some _ => true
  | None => false
  end.

(** Below the bound, adding the step moves the loop variable on by at
    least half of the step. *)
Definition advances (bound step : Q) : Prop :=
  forall v, 0 <= v -> v < bound -> v + step / 2 <= addNum v step.


(** The second half of [getTextPoints]: the scan of the image data, each
    loop with at most [fuel] turns. *)
Definition scanPixels (fuel : nat) (data : list Z) (width height : Z)
    (step : Q) : option (list P3.t) :=
  forLoop fuel (inject_Z height) step
    (fun y => forLoop fuel (inject_Z width) step
                (fun x => Some (samplePixel data width height x y)) 0)
    0.

Definition samplePixels (fuel : nat) (data : list Z) (width height : Z)
    (spacing : Q) : option (list P3.t) :=
  let step := spacing in
  scanPixels fuel data width height step.


(** The pixels the scan reads: [(floor x, floor y)] for a value [x] of
    the loop over the width and a value [y] of the loop over the height,
    where the pixel passes the test of the loop body. *)
Definition scanned (width height : Z) (step : Q) (px py : Z) : Prop :=
  exists (fuel : nat) (xs ys : list Q) (x y : Q),
    loopValues fuel (inject_Z width) step 0 = Some xs /\
    loopValues fuel (inject_Z height) step 0 = Some ys /\
    In x xs /\ In y ys /\
    px = Qfloor x /\ py = Qfloor y /\
    inCanvas width height px py = true.

End Scan.

(** The number of turns of a loop from 0 whose additions are exact, for a
    positive [step]: the least [n] with [n * step >= bound]. *)
Definition turns (bound step : Q) : nat := Z.to_nat (Qceiling (bound / step)).

(** The scene point of a pixel. *)
Definition scenePoint (width height px py : Z) : P3.t :=
  P3.mk (inject_Z px - inject_Z width / 2) (inject_Z height / 2 - inject_Z py) 0.

(** White space among the code units below 256: tab, line feed, vertical
    tab, form feed, carriage return (9 to 13), space (32) and no-break
    space (160). *)
Definition isSpace (c : ascii) : bool :=
  let n := Ascii.nat_of_ascii c in
  Nat.eqb n 32 || Nat.eqb n 160 || ((9 <=? n)%nat && (n <=? 13)%nat).

(** Empty or white space only. *)
Fixpoint isBlank (s : string) : bool :=
  match s with
  | EmptyString => true
  | String c r => isSpace c && isBlank r
  end.

(** The criterion of the specification: alpha above half of the greatest
    alpha, 255. *)
Definition aboveHalf (alpha : option Z) : Prop :=
  exists a, alpha = Some a /\ (255 < 2 * a)%Z.

(** The claim of the specification about retention, at one image. *)
Definition retainsAboveHalf {numbers : NumberSum} (data : list Z)
    (width height : Z) (step : Q) : Prop :=
  forall (fuel : nat) (out : list P3.t),
    samplePixels fuel data width height step = Some out ->
    forall px py, scanned width height step px py ->
      (In (scenePoint width height px py) out <->
       aboveHalf (alphaAt data width px py)).


(** *** The sum of doubles *)

(** [floor (log2 a)] for a positive [a]. *)
Definition log2Floor (a : Q) : Z :=
  let e := (Z.log2 (Qnum a) - Z.log2 (Zpos (Qden a)))%Z in
  if Qle_bool (2 ^ e) a then e else (e - 1)%Z.

(** The nearest integer, a tie going to the even one. *)
Definition roundHalfEven (q : Q) : Z :=
  let f := Qfloor q in
  match Qcompare (q - inject_Z f) (1 # 2) with
  | Lt => f
  | Gt => (f + 1)%Z
  | Eq => if Z.even f then f else (f + 1)%Z
  end.

(** The exponent of the last place of the doubles next to a positive [a]:
    53 significant bits, and -1074 for the subnormal numbers. *)
Definition lastPlace (a : Q) : Z := Z.max (log2Floor a - 52) (-1074).

(** The double nearest to [q], ties to even, as long as it is finite. *)
Definition roundDouble (q : Q) : Q :=
  match Qnum q with
  | Z0 => 0
  | _ =>
      let a := Qabs q in
      let e := lastPlace a in
      let m := roundHalfEven (a / 2 ^ e) in
      Qred (inject_Z (if (Qnum q <? 0)%Z then (- m)%Z else m) * 2 ^ e)
  end.

(** The sum of two doubles. *)
#[export] Instance doubles : NumberSum := {
  addNum := fun a b => roundDouble (a + b)
}.

(** The sum without rounding. *)
Definition exactSums : NumberSum := {| addNum := Qplus |}.

(** A canvas for examples: it draws a line of text that has a visible
    character as one opaque white pixel at the anchor of the line (the
    text is centred on it in both directions) and draws nothing for a
    blank line. *)
Record DotCanvas : Set := mkDotCanvas {
  dotWidth : Z;
  dotHeight : Z;
  dots : list (Z * Z)
}.

Definition hasDot (c : DotCanvas) (px py : Z) : bool :=
  existsb (fun d => Z.eqb (fst d) px && Z.eqb (snd d) py) (dots c).

(** The RGBA bytes, row by row. *)
Definition dotImage (c : DotCanvas) : list Z :=
  flat_map (fun py =>
    flat_map (fun px =>
      let v := if hasDot c (Z.of_nat px) (Z.of_nat py) then 255%Z else 0%Z in
      [v; v; v; v])
      (List.seq 0 (Z.to_nat (dotWidth c))))
    (List.seq 0 (Z.to_nat (dotHeight c))).

#[export] Instance dotCanvas2D : Canvas2D DotCanvas := {
  createCanvas := fun w h => mkDotCanvas w h [];
  fillText := fun c _ line x y =>
    if isBlank line then c
    else mkDotCanvas (dotWidth c) (dotHeight c) ((Qfloor x, Qfloor y) :: dots c);
  getImageData := dotImage
}.

(** A canvas that records the calls of [fillText]: the line and the
    position it is drawn at. *)
Record TextCall : Set := mkTextCall { callLine : string; callX : Q; callY : Q }.

#[export] Instance logCanvas2D : Canvas2D (list TextCall) := {
  createCanvas := fun _ _ => [];
  fillText := fun c _ line x y => c ++ [mkTextCall line x y];
  getImageData := fun _ => []
}.

End Raster.

(** ** SVGShapeParser *)

Module SVGShapeParser.

Local Open Scope string_scope.

(** A JavaScript number as the parser meets it: [parseFloat] of a missing
    or malformed attribute is [NaN], and [NaN] is absorbing for [+], [-]. *)
Inductive JSNum : Set :=
| NaN : JSNum
| Num : Q -> JSNum.

Definition jsAdd (a b : JSNum) : JSNum :=
  match a, b with
  | Num p, Num q => Num (p + q)
  | _, _ => NaN
  end.

Definition jsSub (a b : JSNum) : JSNum :=
  match a, b with
  | Num p, Num q => Num (p - q)
  | _, _ => NaN
  end.

(** Truthiness of a number: neither [NaN] nor zero. *)
Definition truthyNum (a : JSNum) : bool :=
  match a with
  | NaN => false
  | Num q => negb (Qeq_bool q 0)
  end.

(** [a || b] on numbers. *)
Definition jsOr (a b : JSNum) : JSNum := if truthyNum a then a else b.

(** [a === 0]. *)
Definition isZero (a : JSNum) : bool :=
  match a with
  | NaN => false
  | Num q => Qeq_bool q 0
  end.

(** What the JavaScript runtime supplies: the numeric prefix parser behind
    [parseFloat] and the decimal text of a number in a template literal. *)
Class NumberText : Type := {
  parseFloatStr : string -> JSNum;
  showQ : Q -> string
}.

Section Parser.
Context `{NumberText}.

(** [parseFloat(element.getAttribute(name))]: [getAttribute] gives [null]
    for a missing attribute, and [parseFloat(null)] is [NaN]. *)
Definition parseFloat (a : option string) : JSNum :=
  match a with
  | None => NaN
  | Some s => parseFloatStr s
  end.

(** [${n}] in a template literal. *)
Definition numText (n : JSNum) : string :=
  match n with
  | NaN => "NaN"
  | Num q => showQ q
  end.

(** An element: tag name, attributes in document order, child elements. *)
#[warnings="-register-all"]
Inductive Element : Type :=
| Elem : string -> list (string * string) -> list Element -> Element.

Definition tagName (e : Element) : string :=
  match e with Elem t _ _ => t end.

Definition attributes (e : Element) : list (string * string) :=
  match e with Elem _ a _ => a end.

Definition children (e : Element) : list Element :=
  match e with Elem _ _ c => c end.

Fixpoint lookupAttr (name : string) (attrs : list (string * string)) : option string :=
  match attrs with
  | [] => None
  | (k, v) :: rest => if String.eqb k name then Some v else lookupAttr name rest
  end.

Definition getAttribute (e : Element) (name : string) : option string :=
  lookupAttr name (attributes e).

(** [toLowerCase] on one code unit below 256: the letters [A] to [Z] and
    the capital letters of Latin-1, 192 to 222 without the multiplication
    sign 215. *)
Definition lowerUnit (c : ascii) : ascii :=
  let n := Ascii.nat_of_ascii c in
  if (((65 <=? n) && (n <=? 90))
      || ((192 <=? n) && (n <=? 222) && negb (n =? 215)))%nat
  then Ascii.ascii_of_nat (n + 32) else c.

Fixpoint toLowerCase (s : string) : string :=
  match s with
  | EmptyString => EmptyString
  | String c r => String (lowerUnit c) (toLowerCase r)
  end.

Definition rectToPath (rect : Element) : string :=
  let x := jsOr (parseFloat (getAttribute rect "x")) (Num 0) in
  let y := jsOr (parseFloat (getAttribute rect "y")) (Num 0) in
  let w := parseFloat (getAttribute rect "width") in
  let h := parseFloat (getAttribute rect "height") in
  let rx := jsOr (parseFloat (getAttribute rect "rx")) (Num 0) in
  let ry := jsOr (parseFloat (getAttribute rect "ry")) rx in
  let t := numText in
  if isZero rx && isZero ry then
    "M" ++ t x ++ "," ++ t y ++ " L" ++ t (jsAdd x w) ++ "," ++ t y
    ++ " L" ++ t (jsAdd x w) ++ "," ++ t (jsAdd y h)
    ++ " L" ++ t x ++ "," ++ t (jsAdd y h) ++ " Z"
  else
    "M" ++ t (jsAdd x rx) ++ "," ++ t y
    ++ " L" ++ t (jsSub (jsAdd x w) rx) ++ "," ++ t y
    ++ " Q" ++ t (jsAdd x w) ++ "," ++ t y ++ " "
            ++ t (jsAdd x w) ++ "," ++ t (jsAdd y ry)
    ++ " L" ++ t (jsAdd x w) ++ "," ++ t (jsSub (jsAdd y h) ry)
    ++ " Q" ++ t (jsAdd x w) ++ "," ++ t (jsAdd y h) ++ " "
            ++ t (jsSub (jsAdd x w) rx) ++ "," ++ t (jsAdd y h)
    ++ " L" ++ t (jsAdd x rx) ++ "," ++ t (jsAdd y h)
    ++ " Q" ++ t x ++ "," ++ t (jsAdd y h) ++ " "
            ++ t x ++ "," ++ t (jsSub (jsAdd y h) ry)
    ++ " L" ++ t x ++ "," ++ t (jsAdd y ry)
    ++ " Q" ++ t x ++ "," ++ t y ++ " " ++ t (jsAdd x rx) ++ "," ++ t y ++ " Z".

Definition circleToPath (circle : Element) : string :=
  let cx := jsOr (parseFloat (getAttribute circle "cx")) (Num 0) in
  let cy := jsOr (parseFloat (getAttribute circle "cy")) (Num 0) in
  let r := parseFloat (getAttribute circle "r") in
  let t := numText in
  "M" ++ t (jsSub cx r) ++ "," ++ t cy
  ++ " A" ++ t r ++ "," ++ t r ++ " 0 1,0 " ++ t (jsAdd cx r) ++ "," ++ t cy
  ++ " A" ++ t r ++ "," ++ t r ++ " 0 1,0 " ++ t (jsSub cx r) ++ "," ++ t cy.

Definition ellipseToPath (ellipse : Element) : string :=
  let cx := jsOr (parseFloat (getAttribute ellipse "cx")) (Num 0) in
  let cy := jsOr (parseFloat (getAttribute ellipse "cy")) (Num 0) in
  let rx := parseFloat (getAttribute ellipse "rx") in
  let ry := parseFloat (getAttribute ellipse "ry") in
  let t := numText in
  "M" ++ t (jsSub cx rx) ++ "," ++ t cy
  ++ " A" ++ t rx ++ "," ++ t ry ++ " 0 1,0 " ++ t (jsAdd cx rx) ++ "," ++ t cy
  ++ " A" ++ t rx ++ "," ++ t ry ++ " 0 1,0 " ++ t (jsSub cx rx) ++ "," ++ t cy.

(** White space as [\s] in a regular expression and [trim] take it, among
    the code units below 256: tab, line feed, vertical tab, form feed,
    carriage return (9 to 13), space (32) and no-break space (160). *)
Definition isWhite (c : ascii) : bool :=
  let n := Ascii.nat_of_ascii c in
  Nat.eqb n 32 || Nat.eqb n 160 || ((9 <=? n)%nat && (n <=? 13)%nat).

(** A separator of [/[\s,]+/]: white space or a comma. *)
Definition isSep (c : ascii) : bool :=
  Nat.eqb (Ascii.nat_of_ascii c) 44 || isWhite c.

Fixpoint trimStart (s : string) : string :=
  match s with
  | EmptyString => EmptyString
  | String c r => if isWhite c then trimStart r else s
  end.

(** The string without its trailing white space. *)
Fixpoint trimEnd (s : string) : string :=
  match s with
  | EmptyString => EmptyString
  | String c r =>
      match trimEnd r with
      | EmptyString => if isWhite c then EmptyString else String c EmptyString
      | r' => String c r'
      end
  end.

Definition trim (s : string) : string := trimEnd (trimStart s).

(** [s.split(/[\s,]+/)]: [acc] is the token being read and [inSep] says
    that the previous character was a separator. *)
Fixpoint splitSep (inSep : bool) (acc : string) (s : string) : list string :=
  match s with
  | EmptyString => [acc]
  | String c r =>
      if isSep c then
        if inSep then splitSep true acc r
        else acc :: splitSep true EmptyString r
      else splitSep false (acc ++ String c EmptyString) r
  end.

(** The loop of [polygonToPath] from index [i = 2] on: one [L] per
    complete pair. *)
Fixpoint lineTos (points : list string) : string :=
  match points with
  | a :: b :: rest => " L" ++ a ++ "," ++ b ++ lineTos rest
  | _ => EmptyString
  end.

(** [None] is [null]. *)
Definition polygonToPath (element : Element) (close : bool) : option string :=
  match getAttribute element "points" with
  | None => None
  | Some EmptyString => None
  | Some pointsAttr =>
      let points := splitSep false EmptyString (trim pointsAttr) in
      if (List.length points <? 4)%nat then None
      else
        match points with
        | p0 :: p1 :: rest =>
            let d := "M" ++ p0 ++ "," ++ p1 ++ lineTos rest in
            Some (if close then d ++ " Z" else d)
        | _ => None
        end
  end.

Definition lineToPath (line : Element) : string :=
  let x1 := jsOr (parseFloat (getAttribute line "x1")) (Num 0) in
  let y1 := jsOr (parseFloat (getAttribute line "y1")) (Num 0) in
  let x2 := jsOr (parseFloat (getAttribute line "x2")) (Num 0) in
  let y2 := jsOr (parseFloat (getAttribute line "y2")) (Num 0) in
  "M" ++ numText x1 ++ "," ++ numText y1 ++ " L" ++ numText x2 ++ "," ++ numText y2.

Definition elementToPath (element : Element) : option string :=
  let tag := toLowerCase (tagName element) in
  if String.eqb tag "path" then getAttribute element "d"
  else if String.eqb tag "rect" then Some (rectToPath element)
  else if String.eqb tag "circle" then Some (circleToPath element)
  else if String.eqb tag "ellipse" then Some (ellipseToPath element)
  else if String.eqb tag "polygon" || String.eqb tag "polyline"
    then polygonToPath element (String.eqb tag "polygon")
  else if String.eqb tag "line" then Some (lineToPath element)
  else None.

(** Truthiness of [pathData]: neither [null] nor the empty string. *)
Definition truthyStr (s : option string) : bool :=
  match s with
  | None => false
  | Some EmptyString => false
  | Some _ => true
  end.

Record PathDescriptor : Type := mkPath {
  d : string;
  transform : string;
  fill : bool;
  stroke : bool
}.

(** [transforms.join(' ')]. *)
Fixpoint join (l : list string) : string :=
  match l with
  | [] => EmptyString
  | [a] => a
  | a :: rest => a ++ " " ++ join rest
  end.

(** [getComputedTransform]: [chain] is the element followed by its
    ancestors, nearest first; the walk stops at the first [svg] element
    and each transform found is put in front of the ones found before. *)
Fixpoint collectTransforms (chain : list Element) (transforms : list string)
    : list string :=
  match chain with
  | [] => transforms
  | current :: up =>
      if String.eqb (tagName current) "svg" then transforms
      else
        match getAttribute current "transform" with
        | Some (String c r) => collectTransforms up (String c r :: transforms)
        | _ => collectTransforms up transforms
        end
  end.

Definition getComputedTransform (chain : list Element) : string :=
  join (collectTransforms chain []).

(** [a !== 'none'] for an attribute value or [null]. *)
Definition notNone (a : option string) : bool :=
  match a with
  | Some v => negb (String.eqb v "none")
  | None => true
  end.

(** [root.querySelectorAll(tag)]: the descendants of the element with that
    tag name in document order, each with its chain of ancestors.
    [ancestors] is the chain of the element whose children are listed. *)
Fixpoint descendants (tag : string) (ancestors : list Element) (e : Element)
    : list (list Element) :=
  match e with
  | Elem _ _ cs =>
      let chain := e :: ancestors in
      (fix each (l : list Element) : list (list Element) :=
         match l with
         | [] => []
         | c :: rest =>
             ((if String.eqb (tagName c) tag then [c :: chain] else [])
              ++ descendants tag chain c ++ each rest)%list
         end) cs
  end.

Definition querySelectorAll (root : Element) (tag : string) : list (list Element) :=
  descendants tag [] root.

Definition supportedElements : list string :=
  ["path"; "circle"; "rect"; "ellipse"; "polygon"; "polyline"; "line"].

(** The body of the inner [forEach]: what one element pushes. *)
Definition pathOf (chain : list Element) : list PathDescriptor :=
  match chain with
  | [] => []
  | element :: _ =>
      let pathData := elementToPath element in
      if truthyStr pathData then
        match pathData with
        | Some data =>
            [mkPath data (getComputedTransform chain)
                    (notNone (getAttribute element "fill"))
                    (notNone (getAttribute element "stroke"))]
        | None => []
        end
      else []
  end.

(** The [paths] of [extractPaths(svgElement)].  The [viewBox] of the result
    is read from the root alone and is left out. *)
Definition extractPaths (svgElement : Element) : list PathDescriptor :=
  flat_map (fun tag => flat_map pathOf (querySelectorAll svgElement tag))
           supportedElements.

(** The non-empty [transform] of an element, if it has one. *)
Definition ownTransform (e : Element) : list string :=
  match getAttribute e "transform" with
  | Some (String c r) => [String c r]
  | _ => []
  end.

(** The chain up to, and without, the first [svg] element. *)
Fixpoint belowSvg (chain : list Element) : list Element :=
  match chain with
  | [] => []
  | current :: up =>
      if String.eqb (tagName current) "svg" then [] else current :: belowSvg up
  end.

(** What [Number(s)] gives for a string; the runtime supplies it. *)
Class NumberCoercion : Type := { numberOf : string -> JSNum }.

(** The view box of the result; [None] is [undefined], for a [viewBox]
    attribute with fewer than four parts. *)
Record ViewBoxValue : Set := mkViewBoxValue {
  vbMinX : option JSNum;
  vbMinY : option JSNum;
  vbWidth : option JSNum;
  vbHeight : option JSNum
}.

Definition parseViewBox `{NumberCoercion} (svg : Element) : ViewBoxValue :=
  match getAttribute svg "viewBox" with
  | Some (String c r) =>
      let parts := map numberOf (splitSep false EmptyString (String c r)) in
      mkViewBoxValue (nth_error parts 0) (nth_error parts 1)
                     (nth_error parts 2) (nth_error parts 3)
  | _ =>
      mkViewBoxValue
        (Some (Num 0)) (Some (Num 0))
        (Some (jsOr (parseFloat (getAttribute svg "width")) (Num 100)))
        (Some (jsOr (parseFloat (getAttribute svg "height")) (Num 100)))
  end.

End Parser.

(** A runtime for examples, for whole numbers in plain decimal notation:
    it reads an optional sign and digits (anything else is [NaN]) and
    writes a whole number by its digits. *)
Definition wholeNumber (s : string) : JSNum :=
  match NilZero.int_of_string s with
  | Some i => Num (inject_Z (Z.of_int i))
  | None => NaN
  end.

Definition showWhole (q : Q) : string :=
  match Qden q with
  | xH => NilZero.string_of_int (Z.to_int (Qnum q))
  | den => NilZero.string_of_int (Z.to_int (Qnum q)) ++ "/"
           ++ NilZero.string_of_int (Z.to_int (Zpos den))
  end.

#[export] Instance wholeNumbers : NumberText := {
  parseFloatStr := wholeNumber;
  showQ := showWhole
}.

#[export] Instance wholeNumberCoercion : NumberCoercion := {
  numberOf := wholeNumber
}.

End SVGShapeParser.

(** ** SVGPointSampler: outline and fill sampling *)

Module SVGPathSampling.

(** The bounding box that [getBBox] returns. *)
Record BBox : Set := mkBBox { bx : Q; by_ : Q; bwidth : Q; bheight : Q }.

(** What the browser computes for the temporary path element with a given
    [d] and [transform] (the attribute is set only for a non-empty
    transform): its length, the point at a length, its bounding box and
    the fill test. *)
Class PathGeometry : Type := {
  getTotalLength : string -> string -> Q;
  getPointAtLength : string -> string -> Q -> P2.t;
  getBBox : string -> string -> BBox;
  isPointInFill : string -> string -> Q -> Q -> bool
}.

(** [for (let v = v0; v <= bound; v += step) body(v)], collecting what the
    bodies push, for at most [fuel] turns. *)
Fixpoint loopLe {A : Type} (fuel : nat) (bound step : Q) (body : Q -> list A)
    (v : Q) : list A :=
  match fuel with
  | O => []
  | S fuel' =>
      if Qlt_le_dec bound v then []
      else body v ++ loopLe fuel' bound step body (v + step)
  end.

(** The values that the loop variable takes. *)
Fixpoint stepsLe (fuel : nat) (bound step : Q) (v : Q) : list Q :=
  match fuel with
  | O => []
  | S fuel' =>
      if Qlt_le_dec bound v then []
      else v :: stepsLe fuel' bound step (v + step)
  end.

(** The number of turns of the loop from [v0] with a positive [step]. *)
Definition turnsLe (v0 bound step : Q) : nat :=
  Z.to_nat (Qfloor ((bound - v0) / step) + 1).

(** [fuel] turns are enough for the loop from [v]: the variable has passed
    the bound by then. *)
Definition enoughLe (bound step : Q) (fuel : nat) (v : Q) : Prop :=
  bound < v + inject_Z (Z.of_nat fuel) * step.

(** Rounding toward zero. *)
Definition Qtrunc (q : Q) : Z := Z.quot (Qnum q) (Zpos (Qden q)).

(** [a % b] on numbers: the remainder has the sign of the dividend. *)
Definition jsRem (a b : Q) : Q := a - b * inject_Z (Qtrunc (a / b)).

Section Sampler.
Context `{PathGeometry}.

Definition samplePath (pathD transform : string) (spacing : Q) : list P2.t :=
  let totalLength := getTotalLength pathD transform in
  let points :=
    loopLe (turnsLe 0 totalLength spacing) totalLength spacing
      (fun dist =>
         let point := getPointAtLength pathD transform dist in
         [P2.mk (P2.x point) (P2.y point)])
      0 in
  if negb (Qeq_bool (jsRem totalLength spacing) 0) then
    let endPoint := getPointAtLength pathD transform totalLength in
    points ++ [P2.mk (P2.x endPoint) (P2.y endPoint)]
  else points.

(** One row of the fill grid: the inner loop at the height [y]. *)
Definition fillRow (pathD transform : string) (bbox : BBox) (spacing : Q)
    (rowIndex : nat) (y : Q) : list P2.t :=
  let xOffset := inject_Z (Z.of_nat (rowIndex mod 2)) * (spacing / 2) in
  loopLe (turnsLe (bx bbox + xOffset) (bx bbox + bwidth bbox) spacing)
    (bx bbox + bwidth bbox) spacing
    (fun x => if isPointInFill pathD transform x y then [P2.mk x y] else [])
    (bx bbox + xOffset).

(** The outer loop of [sampleFill], with its row counter. *)
Fixpoint fillRows (fuel : nat) (pathD transform : string) (bbox : BBox)
    (spacing : Q) (rowIndex : nat) (y : Q) : list P2.t :=
  match fuel with
  | O => []
  | S fuel' =>
      if Qlt_le_dec (by_ bbox + bheight bbox) y then []
      else fillRow pathD transform bbox spacing rowIndex y
           ++ fillRows fuel' pathD transform bbox spacing (S rowIndex) (y + spacing)
  end.

Definition sampleFill (pathD transform : string) (spacing : Q) : list P2.t :=
  let bbox := getBBox pathD transform in
  fillRows (turnsLe (by_ bbox) (by_ bbox + bheight bbox) spacing)
           pathD transform bbox spacing 0 (by_ bbox).

(** The [options] of [sampleAllPaths]; a missing property is [None]. *)
Record SampleOptions : Set := mkSampleOptions {
  includeOutline : option bool;
  includeFill : option bool;
  mergeOverlapping : option bool
}.

Definition orElse (d : bool) (o : option bool) : bool :=
  match o with Some b => b | None => d end.

(** What one path adds to [allPoints]. *)
Definition pathPoints (outline fill : bool) (spacing : Q)
    (pathInfo : SVGShapeParser.PathDescriptor) : list P2.t :=
  (if outline then
     samplePath (SVGShapeParser.d pathInfo) (SVGShapeParser.transform pathInfo) spacing
   else [])
  ++
  (if fill then
     sampleFill (SVGShapeParser.d pathInfo) (SVGShapeParser.transform pathInfo) spacing
   else []).

Definition sampleAllPaths (paths : list SVGShapeParser.PathDescriptor)
    (spacing : Q) (options : SampleOptions) : list P2.t :=
  let outline := orElse true (includeOutline options) in
  let fill := orElse false (includeFill options) in
  let merge := orElse true (mergeOverlapping options) in
  let allPoints := flat_map (pathPoints outline fill spacing) paths in
  SVGPointSampler.mergeStep merge allPoints spacing.

End Sampler.

(** A geometry for examples: whatever the path data, the square with the
    corners [(0, 0)] and [(10, 10)], walked from [(0, 0)] along the [x]
    axis first. *)
Definition squarePointAt (dist : Q) : P2.t :=
  if Qle_bool dist 10 then P2.mk dist 0
  else if Qle_bool dist 20 then P2.mk 10 (dist - 10)
  else if Qle_bool dist 30 then P2.mk (30 - dist) 10
  else P2.mk 0 (40 - dist).

#[export] Instance squareGeometry : PathGeometry := {
  getTotalLength := fun _ _ => 40;
  getPointAtLength := fun _ _ dist => squarePointAt dist;
  getBBox := fun _ _ => mkBBox 0 0 10 10;
  isPointInFill := fun _ _ x y =>
    Qle_bool 0 x && Qle_bool x 10 && Qle_bool 0 y && Qle_bool y 10
}.

End SVGPathSampling.

(** ** getHoverScale3D: the hover field *)

Module Hover.

Local Open Scope R_scope.

(** The fields of [textData] that the hover field reads; [None] is [null]. *)
Record TextData : Type := mkTextData {
  hoverEffectEnabled : bool;
  hoverRadius : R;
  hoverIntensity : R;
  mouseX : option R;
  mouseY : option R
}.

(** The active camera, as far as the hover field uses it:
    [new THREE.Vector3(x, y, z).project(camera)], of which the [x] and [y]
    of the result are read. *)
Record Camera : Type := mkCamera { project : R -> R -> R -> R * R }.

(** The camera that [init] builds: orthographic, with the frustum of the
    canvas, so that scene units are pixels. *)
Definition orthographic (canvasWidth canvasHeight : R) : Camera :=
  mkCamera (fun x y _ => (x / (canvasWidth / 2), y / (canvasHeight / 2))).

(** The distance from the projected point to the cursor at [mx], [my]. *)
Definition screenDistance (camera : Camera) (canvasWidth canvasHeight : R)
    (pointX pointY mx my : R) : R :=
  let vec := project camera pointX pointY 0 in
  let screenX := (fst vec + 1) / 2 * canvasWidth in
  let screenY := (- snd vec + 1) / 2 * canvasHeight in
  let dx := screenX - mx in
  let dy := screenY - my in
  sqrt (dx * dx + dy * dy).

(** [getHoverScale3D] from the test of the distance on. *)
Definition scaleAt (textData : TextData) (distance : R) : R :=
  if Rge_dec distance (hoverRadius textData) then 1
  else
    let normalizedDistance := distance / hoverRadius textData in
    let scale :=
      if Rge_dec (hoverIntensity textData) 1 then
        1 + (hoverIntensity textData - 1) * (1 - normalizedDistance)
      else
        let shrinkAmount := Rabs (hoverIntensity textData) in
        let minScale := Rmax (1 / 10) (1 / (shrinkAmount + 1)) in
        1 - (1 - minScale) * (1 - normalizedDistance) in
    Rmax (1 / 10) scale.

Definition getHoverScale3D (camera : Camera) (canvasWidth canvasHeight : R)
    (textData : TextData) (pointX pointY : R) : R :=
  if negb (hoverEffectEnabled textData) then 1
  else
    match mouseX textData, mouseY textData with
    | Some mx, Some my =>
        scaleAt textData
          (screenDistance camera canvasWidth canvasHeight pointX pointY mx my)
    | _, _ => 1
    end.

End Hover.

(** ** getAutoPosition: the auto-motion generator *)

Module AutoMotion.

Local Open Scope R_scope.

Record Position : Type := mkPosition { x : R; y : R }.

(** A cached sample point, [{x, y, z}]. *)
Record Point : Type := mkPoint { px : R; py : R; pz : R }.

(** The fields of [textData] that the generator reads. *)
Record TextData : Type := mkTextData { autoSpeed : R; autoSize : R }.

(** The module-level variables of the random and trace patterns, and the
    number of calls of [Math.random] made so far. *)
Record State : Type := mkState {
  randomTarget : Position;
  randomCurrent : Position;
  randomLastTime : R;
  randomInitialized : bool;
  traceIndex : nat;
  randomCalls : nat
}.

(** The state when the script is loaded. *)
Definition initialState : State :=
  mkState (mkPosition 0 0) (mkPosition 0 0) 0 false 0 0.

(** The first call after the pattern or the interaction mode changed:
    the handlers clear [randomInitialized] and [traceIndex]. *)
Definition resetState (s : State) : State :=
  mkState (randomTarget s) (randomCurrent s) (randomLastTime s) false 0
          (randomCalls s).

(** The two assignments [randomTarget.x = ...; randomTarget.y = ...], each
    with a call of [Math.random]; [random k] is what call number [k]
    returns. *)
Definition rollTarget (random : nat -> R) (centerX centerY rangeX rangeY : R)
    (s : State) : State :=
  let u := random (randomCalls s) in
  let v := random (S (randomCalls s)) in
  mkState (mkPosition (centerX + (u * 2 - 1) * rangeX)
                      (centerY + (v * 2 - 1) * rangeY))
          (randomCurrent s) (randomLastTime s) (randomInitialized s)
          (traceIndex s) (S (S (randomCalls s))).

Definition setCurrent (p : Position) (s : State) : State :=
  mkState (randomTarget s) p (randomLastTime s) (randomInitialized s)
          (traceIndex s) (randomCalls s).

Definition setInitialized (s : State) : State :=
  mkState (randomTarget s) (randomCurrent s) (randomLastTime s) true
          (traceIndex s) (randomCalls s).

Definition setLastTime (t : R) (s : State) : State :=
  mkState (randomTarget s) (randomCurrent s) t (randomInitialized s)
          (traceIndex s) (randomCalls s).

Definition setTraceIndex (i : nat) (s : State) : State :=
  mkState (randomTarget s) (randomCurrent s) (randomLastTime s)
          (randomInitialized s) i (randomCalls s).

(** The test [time - randomLastTime > interval] with
    [interval = 3000 / textData.autoSpeed].  For [autoSpeed = 0] the
    interval is [Infinity] and the test fails at every time. *)
Definition intervalPassed (textData : TextData) (time lastTime : R) : Prop :=
  autoSpeed textData <> 0 /\ time - lastTime > 3000 / autoSpeed textData.

Definition intervalPassed_dec (textData : TextData) (time lastTime : R)
    : {intervalPassed textData time lastTime}
      + {~ intervalPassed textData time lastTime} :=
  match Req_dec_T (autoSpeed textData) 0 with
  | left E => right (fun P => proj1 P E)
  | right N =>
      match Rgt_dec (time - lastTime) (3000 / autoSpeed textData) with
      | left G => left (conj N G)
      | right NG => right (fun P => NG (proj2 P))
      end
  end.

(** The [case 'random'] block. *)
Definition randomStep (random : nat -> R) (canvasWidth canvasHeight : R)
    (textData : TextData) (centerX centerY sizeMultiplier time : R) (s : State)
    : Position * State :=
  let rangeX := canvasWidth * (4 / 10) * sizeMultiplier in
  let rangeY := canvasHeight * (35 / 100) * sizeMultiplier in
  let s1 :=
    if negb (randomInitialized s) then
      setInitialized
        (rollTarget random centerX centerY rangeX rangeY
           (setCurrent (mkPosition centerX centerY) s))
    else s in
  let s2 :=
    if intervalPassed_dec textData time (randomLastTime s1) then
      setLastTime time (rollTarget random centerX centerY rangeX rangeY s1)
    else s1 in
  let easeSpeed := 2 / 100 + autoSpeed textData * (8 / 1000) in
  let current :=
    mkPosition
      (x (randomCurrent s2) + (x (randomTarget s2) - x (randomCurrent s2)) * easeSpeed)
      (y (randomCurrent s2) + (y (randomTarget s2) - y (randomCurrent s2)) * easeSpeed) in
  (current, setCurrent current s2).

(** The [case 'trace'] block; [position] is the default, the canvas centre. *)
Definition traceStep (canvasWidth canvasHeight : R) (textData : TextData)
    (cachedPoints : list Point) (position : Position) (s : State)
    : Position * State :=
  if Nat.ltb 0 (List.length cachedPoints) then
    let pointsPerFrame := Z.to_nat (Z.max 1 (Int_part (autoSpeed textData * 2))) in
    let index := Nat.modulo (traceIndex s + pointsPerFrame) (List.length cachedPoints) in
    match nth_error cachedPoints index with
    | Some point =>
        (mkPosition (px point + canvasWidth / 2) (canvasHeight / 2 - py point),
         setTraceIndex index s)
    | None => (position, setTraceIndex index s)
    end
  else (position, s).

Definition getAutoPosition (random : nat -> R) (canvasWidth canvasHeight : R)
    (textData : TextData) (cachedPoints : list Point)
    (time : R) (pattern : string) (s : State) : Position * State :=
  let centerX := canvasWidth / 2 in
  let centerY := canvasHeight / 2 in
  let speed := autoSpeed textData * (3 / 10000) in
  let t := time * speed in
  let sizeMultiplier := autoSize textData * (1 / 10) in
  let position := mkPosition centerX centerY in
  if String.eqb pattern "sine" then
    (mkPosition (centerX + sin t * (canvasWidth * (35 / 100) * sizeMultiplier))
                (centerY + sin (t * 2) * (50 * sizeMultiplier)), s)
  else if String.eqb pattern "infinity" then
    (mkPosition (centerX + sin t * (canvasWidth * (3 / 10) * sizeMultiplier))
                (centerY + sin (t * 2) * (canvasHeight * (2 / 10) * sizeMultiplier)), s)
  else if String.eqb pattern "circle" then
    (mkPosition (centerX + cos t * (canvasWidth * (3 / 10) * sizeMultiplier))
                (centerY + sin t * (canvasHeight * (25 / 100) * sizeMultiplier)), s)
  else if String.eqb pattern "random" then
    randomStep random canvasWidth canvasHeight textData centerX centerY
               sizeMultiplier time s
  else if String.eqb pattern "trace" then
    traceStep canvasWidth canvasHeight textData cachedPoints position s
  else (position, s).

(** The claim of the specification about the first call in the random
    pattern, at one input: the position returned is the canvas centre. *)
Definition firstRandomAtCentre (random : nat -> R) (canvasWidth canvasHeight : R)
    (textData : TextData) (cachedPoints : list Point) (time : R) (s : State)
    : Prop :=
  randomInitialized s = false ->
  fst (getAutoPosition random canvasWidth canvasHeight textData cachedPoints
                       time "random" s)
  = mkPosition (canvasWidth / 2) (canvasHeight / 2).

(** A position within [rangeX] and [rangeY] of the centre. *)
Definition inRectangle (centerX centerY rangeX rangeY : R) (p : Position) : Prop :=
  Rabs (x p - centerX) <= rangeX /\ Rabs (y p - centerY) <= rangeY.

End AutoMotion.

(** ** updateInstancedMesh: the instance transforms *)

Module Instances.

Local Open Scope R_scope.

(** An entry of [particlePositions]. *)
Record Particle : Type := mkParticle {
  x : R; y : R; z : R; baseScale : R
}.

(** What [updateInstancedMesh] sets on [dummy] before [setMatrixAt]. *)
Record Transform : Type := mkTransform {
  position : R * R * R;
  rotation : R * R * R;
  scale : R
}.

(** Rounding toward zero. *)
Definition Rtrunc (r : R) : Z :=
  if Rle_dec 0 r then Int_part r else (- Int_part (- r))%Z.

(** [a % b] on numbers: the remainder has the sign of the dividend. *)
Definition jsRem (a b : R) : R := a - b * IZR (Rtrunc (a / b)).

(** [(i * 0.1) % (Math.PI * 2)]. *)
Definition phase (i : nat) : R := jsRem (INR i * (1 / 10)) (PI * 2).

(** The body of the loop of [updateInstancedMesh] for particle [i]. *)
Definition instanceTransform (camera : Hover.Camera) (canvasWidth canvasHeight : R)
    (textData : Hover.TextData) (shapeSize rotationAngle : R)
    (i : nat) (p : Particle) : Transform :=
  let scale := baseScale p in
  let scale :=
    match Hover.hoverEffectEnabled textData, Hover.mouseX textData with
    | true, Some _ =>
        scale * Hover.getHoverScale3D camera canvasWidth canvasHeight textData
                                      (x p) (y p)
    | _, _ => scale
    end in
  mkTransform (x p, y p, z p)
              (rotationAngle + phase i, rotationAngle + phase i, 0)
              (shapeSize * scale).

(** The loop over [particlePositions], from index [i] on. *)
Fixpoint transformsFrom (camera : Hover.Camera) (canvasWidth canvasHeight : R)
    (textData : Hover.TextData) (shapeSize rotationAngle : R)
    (i : nat) (particles : list Particle) : list Transform :=
  match particles with
  | [] => []
  | p :: rest =>
      instanceTransform camera canvasWidth canvasHeight textData shapeSize
                        rotationAngle i p
      :: transformsFrom camera canvasWidth canvasHeight textData shapeSize
                        rotationAngle (S i) rest
  end.

(** [updateInstancedMesh(rotationAngle)]: the matrices written with
    [setMatrixAt], in index order; [None] when the function returns at
    its guard ([hasMesh] says that [instancedMesh] and [dummy] are set). *)
Definition updateInstancedMesh (hasMesh : bool) (camera : Hover.Camera)
    (canvasWidth canvasHeight : R) (textData : Hover.TextData)
    (shapeSize : R) (particlePositions : list Particle) (rotationAngle : R)
    : option (list Transform) :=
  if negb hasMesh || Nat.eqb (List.length particlePositions) 0 then None
  else Some (transformsFrom camera canvasWidth canvasHeight textData shapeSize
                            rotationAngle 0 particlePositions).

End Instances.

(** ** The two frame loops *)

Module FrameLoop.

(** What the animation loop and the hover loop share: the two flags of
    [textData], the two frame handles ([None] is [null]) and, on the side
    of the browser, the ids of the frame callbacks that are requested and
    have neither run nor been cancelled, with the next id to hand out. *)
Record State : Set := mkState {
  isAnimating : bool;
  hoverEffectEnabled : bool;
  animationFrameId : option nat;
  hoverAnimationFrameId : option nat;
  pendingAnimate : list nat;
  pendingHover : list nat;
  nextId : nat
}.

(** The state when the script is loaded; the ids of frames are positive. *)
Definition initial : State := mkState false false None None [] [] 1.

Definition without (id : nat) (l : list nat) : list nat :=
  filter (fun i => negb (Nat.eqb i id)) l.

(** [cancelAnimationFrame(id)]. *)
Definition cancelAnimationFrame (id : nat) (s : State) : State :=
  mkState (isAnimating s) (hoverEffectEnabled s) (animationFrameId s)
          (hoverAnimationFrameId s) (without id (pendingAnimate s))
          (without id (pendingHover s)) (nextId s).

(** [animationFrameId = requestAnimationFrame(animate)]. *)
Definition requestAnimate (s : State) : State :=
  mkState (isAnimating s) (hoverEffectEnabled s) (Some (nextId s))
          (hoverAnimationFrameId s) (nextId s :: pendingAnimate s)
          (pendingHover s) (S (nextId s)).

(** [hoverAnimationFrameId = requestAnimationFrame(hoverRenderLoop)]. *)
Definition requestHover (s : State) : State :=
  mkState (isAnimating s) (hoverEffectEnabled s) (animationFrameId s)
          (Some (nextId s)) (pendingAnimate s)
          (nextId s :: pendingHover s) (S (nextId s)).

Definition setAnimationFrameId (h : option nat) (s : State) : State :=
  mkState (isAnimating s) (hoverEffectEnabled s) h (hoverAnimationFrameId s)
          (pendingAnimate s) (pendingHover s) (nextId s).

Definition setHoverAnimationFrameId (h : option nat) (s : State) : State :=
  mkState (isAnimating s) (hoverEffectEnabled s) (animationFrameId s) h
          (pendingAnimate s) (pendingHover s) (nextId s).

Definition setIsAnimating (b : bool) (s : State) : State :=
  mkState b (hoverEffectEnabled s) (animationFrameId s) (hoverAnimationFrameId s)
          (pendingAnimate s) (pendingHover s) (nextId s).

Definition setHoverEffectEnabled (b : bool) (s : State) : State :=
  mkState (isAnimating s) b (animationFrameId s) (hoverAnimationFrameId s)
          (pendingAnimate s) (pendingHover s) (nextId s).

(** Truthiness of a handle: an id other than 0. *)
Definition truthyHandle (h : option nat) : option nat :=
  match h with
  | Some (S n) => Some (S n)
  | _ => None
  end.

Definition stopHoverRendering (s : State) : State :=
  match truthyHandle (hoverAnimationFrameId s) with
  | Some id => setHoverAnimationFrameId None (cancelAnimationFrame id s)
  | None => s
  end.

Definition startHoverRendering (s : State) : State :=
  let s := stopHoverRendering s in
  if hoverEffectEnabled s && negb (isAnimating s) then requestHover s else s.

(** [animate()], called directly or as a frame callback. *)
Definition animate (s : State) : State :=
  if negb (isAnimating s) then setAnimationFrameId None s
  else requestAnimate s.

Definition startAnimation (s : State) : State :=
  if negb (isAnimating s) then
    animate (setIsAnimating true (stopHoverRendering s))
  else s.

Definition stopAnimation (s : State) : State :=
  if isAnimating s then
    let s := setIsAnimating false s in
    let s :=
      match truthyHandle (animationFrameId s) with
      | Some id => setAnimationFrameId None (cancelAnimationFrame id s)
      | None => s
      end in
    if hoverEffectEnabled s then startHoverRendering s else s
  else s.

(** [hoverRenderLoop()], the frame callback of the hover loop. *)
Definition hoverRenderLoop (s : State) : State :=
  if negb (hoverEffectEnabled s) || isAnimating s
  then setHoverAnimationFrameId None s
  else requestHover s.

(** The change handler of the hover check box. *)
Definition setHoverEnabled (enabled : bool) (s : State) : State :=
  let s := setHoverEffectEnabled enabled s in
  if enabled then startHoverRendering s else stopHoverRendering s.

(** The browser runs the frame callback with the id [id], if it is
    pending, and forgets it. *)
Definition frameFires (id : nat) (s : State) : State :=
  if existsb (Nat.eqb id) (pendingAnimate s) then
    animate (cancelAnimationFrame id s)
  else if existsb (Nat.eqb id) (pendingHover s) then
    hoverRenderLoop (cancelAnimationFrame id s)
  else s.

(** What can happen: a call of one of the handlers, or a frame. *)
Inductive Event : Set :=
| StartAnimation
| StopAnimation
| SetHover (enabled : bool)
| FrameFires (id : nat).

Definition step (s : State) (e : Event) : State :=
  match e with
  | StartAnimation => startAnimation s
  | StopAnimation => stopAnimation s
  | SetHover enabled => setHoverEnabled enabled s
  | FrameFires id => frameFires id s
  end.

Definition run (events : list Event) (s : State) : State :=
  fold_left step events s.

(** The handles agree with the flags and with the browser: a frame of the
    animation loop is pending, under the id in [animationFrameId],
    exactly while animating; a frame of the hover loop, under the id in
    [hoverAnimationFrameId], exactly while hover is enabled and nothing
    animates; and no other frame is pending. *)
Definition loopPending (on : bool) (handle : option nat) (pending : list nat)
    (next : nat) : Prop :=
  if on then exists id, handle = Some (S id) /\ pending = [S id] /\ (S id < next)%nat
  else handle = None /\ pending = [].

Definition consistent (s : State) : Prop :=
  loopPending (isAnimating s) (animationFrameId s) (pendingAnimate s) (nextId s) /\
  loopPending (hoverEffectEnabled s && negb (isAnimating s))
              (hoverAnimationFrameId s) (pendingHover s) (nextId s) /\
  (1 <= nextId s)%nat.

End FrameLoop.

(** * Properties of the coordinate normaliser *)

(** Linear and non-linear arithmetic over [Q] with the halves written as
    multiplications. *)
Ltac qlra := unfold Qdiv in *; change (/ 2) with (1 # 2) in *; lra.
Ltac qnra := unfold Qdiv in *; change (/ 2) with (1 # 2) in *; nra.

Section NormalizerFacts.

Import SVGCoordinateNormalizer.

Lemma fold_Qmax_le (b a : Q) (r : list Q) :
  a <= b -> Forall (fun v => v <= b) r -> fold_right Qmax a r <= b.
Proof.
  intros Ha Hr. induction Hr as [|v r Hv _ IH]; simpl.
  - exact Ha.
  - apply Q.max_lub; assumption.
Qed.

Lemma fold_Qmin_ge (b a : Q) (r : list Q) :
  b <= a -> Forall (fun v => b <= v) r -> b <= fold_right Qmin a r.
Proof.
  intros Ha Hr. induction Hr as [|v r Hv _ IH]; simpl.
  - exact Ha.
  - apply Q.min_glb; assumption.
Qed.

(** Coordinates that all lie in [[lo, hi]] span at most [hi - lo]. *)
Lemma extent_le (lo hi : Q) (l : list Q) :
  lo <= hi -> Forall (fun v => lo <= v <= hi) l -> extent l <= hi - lo.
Proof.
  intros Hlh Hl. destruct l as [|a r]; simpl.
  - lra.
  - inversion Hl as [|? ? [Ha1 Ha2] Hr]; subst.
    assert (H1 : fold_right Qmax a r <= hi).
    { apply fold_Qmax_le; [exact Ha2|].
      eapply Forall_impl; [|exact Hr]. simpl. intros v [_ Hv]. exact Hv. }
    assert (H2 : lo <= fold_right Qmin a r).
    { apply fold_Qmin_ge; [exact Ha1|].
      eapply Forall_impl; [|exact Hr]. simpl. intros v [Hv _]. exact Hv. }
    lra.
Qed.

Lemma scales_other (mode : string) (ew eh : Q) (vb : ViewBox.t) :
  mode <> "contain"%string -> mode <> "cover"%string -> mode <> "stretch"%string ->
  scales mode ew eh vb = (1, 1).
Proof.
  intros H1 H2 H3. unfold scales.
  apply String.eqb_neq in H1, H2, H3. rewrite H1, H2, H3. reflexivity.
Qed.

(** The contain scale is non-negative and fits the view box into the
    effective area on both axes. *)
Lemma contain_scale_fits (ew eh : Q) (vb : ViewBox.t) :
  0 < ViewBox.width vb -> 0 < ViewBox.height vb -> 0 <= ew -> 0 <= eh ->
  let s := Qmin (ew / ViewBox.width vb) (eh / ViewBox.height vb) in
  0 <= s /\ s * ViewBox.width vb <= ew /\ s * ViewBox.height vb <= eh.
Proof.
  intros Hw Hh Hew Heh s.
  assert (Hqw : 0 <= ew / ViewBox.width vb).
  { apply Qle_shift_div_l; [exact Hw|]. lra. }
  assert (Hqh : 0 <= eh / ViewBox.height vb).
  { apply Qle_shift_div_l; [exact Hh|]. lra. }
  assert (Hsw : s <= ew / ViewBox.width vb) by apply Q.le_min_l.
  assert (Hsh : s <= eh / ViewBox.height vb) by apply Q.le_min_r.
  split; [apply Q.min_glb; assumption|].
  split.
  - apply Qle_trans with (ew / ViewBox.width vb * ViewBox.width vb).
    + apply Qmult_le_compat_r; [exact Hsw | lra].
    + assert (E : ew / ViewBox.width vb * ViewBox.width vb == ew)
        by (field; lra).
      rewrite E. apply Qle_refl.
  - apply Qle_trans with (eh / ViewBox.height vb * ViewBox.height vb).
    + apply Qmult_le_compat_r; [exact Hsh | lra].
    + assert (E : eh / ViewBox.height vb * ViewBox.height vb == eh)
        by (field; lra).
      rewrite E. apply Qle_refl.
Qed.

(** One transformed point stays in the padded rectangle around the offset
    when the scale fits the view box into the effective area. *)
Lemma transformPoint_in_box (vb : ViewBox.t) (s ew eh ox oy : Q) (p : P2.t) :
  0 <= s -> s * ViewBox.width vb <= ew -> s * ViewBox.height vb <= eh ->
  inViewBox vb p ->
  let q := transformPoint (ViewBox.minX vb + ViewBox.width vb / 2)
                          (ViewBox.minY vb + ViewBox.height vb / 2) s s ox oy p in
  (ox - ew / 2 <= P3.x q <= ox + ew / 2) /\
  (oy - eh / 2 <= P3.y q <= oy + eh / 2).
Proof.
  intros Hs Hw Hh [[Hx1 Hx2] [Hy1 Hy2]]. simpl.
  set (w := ViewBox.width vb) in *. set (h := ViewBox.height vb) in *.
  set (mx := ViewBox.minX vb) in *. set (my := ViewBox.minY vb) in *.
  set (px := P2.x p) in *. set (py := P2.y p) in *.
  assert (A1 : 0 <= (px - mx) * s) by (apply Qmult_le_0_compat; lra).
  assert (A2 : 0 <= (mx + w - px) * s) by (apply Qmult_le_0_compat; lra).
  assert (B1 : 0 <= (py - my) * s) by (apply Qmult_le_0_compat; lra).
  assert (B2 : 0 <= (my + h - py) * s) by (apply Qmult_le_0_compat; lra).
  repeat split; qnra.
Qed.

(** C1, as stated, fails: a source point outside the view box is scaled
    like any other.  With the view box [0 0 100 100] on an 800 x 600 canvas
    and padding 0.1 the scale is 4.8 and the points [(0, 0)] and [(200, 0)]
    go to [x = -240] and [x = 720]: a width of 960 against 640. *)
Lemma normalize_contain_not_clipped :
  bboxWidth (normalize [P2.mk 0 0; P2.mk 200 0] (ViewBox.mk 0 0 100 100)
               (Size.mk 800 600)
               (mkOptions (Some "contain"%string) (Some (1 # 10)) (Some 0) (Some 0)))
    == 960 /\
  ~ containFits [P2.mk 0 0; P2.mk 200 0] (ViewBox.mk 0 0 100 100)
      (Size.mk 800 600) (1 # 10)
      (mkOptions (Some "contain"%string) (Some (1 # 10)) (Some 0) (Some 0)).
Proof.
  split; [vm_compute; reflexivity|].
  unfold containFits. intros [Hw _].
  vm_compute in Hw. apply Hw. reflexivity.
Qed.

(** C1, amended: in contain mode, when every source point lies inside the
    view box, the canvas is not negative and the padding is at most one
    half, the bounding box of the output is at most the canvas size times
    [1 - 2 * padding] on each axis, and every output point lies in the
    padded canvas rectangle moved by the pixel offset. *)
Theorem normalize_contain_within_padded_canvas
    (points : list P2.t) (vb : ViewBox.t) (cs : Size.t) (options : Options) :
  let pad := orDefault (1 # 10) (padding options) in
  let ox := orDefault 0 (offsetX options) / 100 * Size.width cs in
  let oy := orDefault 0 (offsetY options) / 100 * Size.height cs in
  orDefault "contain"%string (fitMode options) = "contain"%string ->
  points <> [] ->
  0 < ViewBox.width vb -> 0 < ViewBox.height vb ->
  0 <= Size.width cs -> 0 <= Size.height cs -> pad <= 1 # 2 ->
  Forall (inViewBox vb) points ->
  let out := normalize points vb cs options in
  bboxWidth out <= Size.width cs * (1 - 2 * pad) /\
  bboxHeight out <= Size.height cs * (1 - 2 * pad) /\
  Forall (inPaddedCanvasAt cs pad ox oy) out.
Proof.
  intros pad ox oy Hmode Hne Hw Hh Hcw Hch Hpad Hin out.
  set (ew := Size.width cs * (1 - pad * 2)).
  set (eh := Size.height cs * (1 - pad * 2)).
  assert (Hew : 0 <= ew) by (unfold ew; apply Qmult_le_0_compat; lra).
  assert (Heh : 0 <= eh) by (unfold eh; apply Qmult_le_0_compat; lra).
  destruct (contain_scale_fits ew eh vb Hw Hh Hew Heh) as (Hs & Hsw & Hsh).
  set (s := Qmin (ew / ViewBox.width vb) (eh / ViewBox.height vb)) in *.
  assert (Hout : out =
    map (transformPoint (ViewBox.minX vb + ViewBox.width vb / 2)
                        (ViewBox.minY vb + ViewBox.height vb / 2) s s ox oy) points).
  { unfold out, normalize. rewrite Hmode.
    destruct points as [|p r]; [congruence|]. reflexivity. }
  assert (Hbox : Forall (fun q =>
            (ox - ew / 2 <= P3.x q <= ox + ew / 2) /\
            (oy - eh / 2 <= P3.y q <= oy + eh / 2)) out).
  { rewrite Hout. apply Forall_map.
    eapply Forall_impl; [|exact Hin]. intros p Hp.
    apply (transformPoint_in_box vb s ew eh ox oy p Hs Hsw Hsh Hp). }
  assert (Ew : Size.width cs * (1 - 2 * pad) == ew) by (unfold ew; ring).
  assert (Eh : Size.height cs * (1 - 2 * pad) == eh) by (unfold eh; ring).
  split; [|split].
  - rewrite Ew. unfold bboxWidth.
    apply Qle_trans with ((ox + ew / 2) - (ox - ew / 2)).
    + apply extent_le; [qlra|]. apply Forall_map.
      eapply Forall_impl; [|exact Hbox]. simpl. intros q [Hq _]. exact Hq.
    + qlra.
  - rewrite Eh. unfold bboxHeight.
    apply Qle_trans with ((oy + eh / 2) - (oy - eh / 2)).
    + apply extent_le; [qlra|]. apply Forall_map.
      eapply Forall_impl; [|exact Hbox]. simpl. intros q [_ Hq]. exact Hq.
    + qlra.
  - eapply Forall_impl; [|exact Hbox]. intros q [[Hx1 Hx2] [Hy1 Hy2]].
    unfold inPaddedCanvasAt. fold ew eh. split; apply Qabs_Qle_condition; qlra.
Qed.

(** C10: with a fit mode other than contain, cover and stretch the scale
    is 1 on both axes: the output has one point per source point, the
    source point recentred on the view box centre, flipped in [y] and
    moved by the pixel offset, with [z = 0]. *)
Theorem normalize_other_fitMode_unit_scale
    (points : list P2.t) (vb : ViewBox.t) (cs : Size.t) (options : Options)
    (mode : string) :
  fitMode options = Some mode ->
  mode <> "contain"%string -> mode <> "cover"%string -> mode <> "stretch"%string ->
  let cx := ViewBox.minX vb + ViewBox.width vb / 2 in
  let cy := ViewBox.minY vb + ViewBox.height vb / 2 in
  let ox := orDefault 0 (offsetX options) / 100 * Size.width cs in
  let oy := orDefault 0 (offsetY options) / 100 * Size.height cs in
  Forall2 (fun p q =>
             P3.eq q (P3.mk (P2.x p - cx + ox) (- (P2.y p - cy) + oy) 0))
          points (normalize points vb cs options).
Proof.
  intros Hmode H1 H2 H3 cx cy ox oy.
  unfold normalize. rewrite Hmode. simpl orDefault.
  rewrite (scales_other mode _ _ vb H1 H2 H3).
  destruct points as [|p r]; [constructor|].
  change (Nat.eqb (List.length (p :: r)) 0) with false. cbv iota.
  fold cx cy ox oy.
  generalize (p :: r). intros l. induction l as [|a l IH]; simpl.
  - constructor.
  - constructor; [|exact IH].
    unfold P3.eq, transformPoint. simpl. repeat split; ring.
Qed.

End NormalizerFacts.

(** * Properties of the removal of overlapping points *)

Section OverlapFacts.

Import SVGPointSampler.

Lemma distSq_sym (p q : P2.t) : distSq p q == distSq q p.
Proof. unfold distSq. ring. Qed.

(** A point that passes the test is far from every retained point. *)
Lemma tooClose_false (d2 : Q) (result : list P2.t) (point : P2.t) :
  tooClose d2 result point = false ->
  forall existing, In existing result -> d2 <= distSq point existing.
Proof.
  unfold tooClose. intros H existing Hin.
  destruct (closer d2 point existing) eqn:Hc.
  - assert (existsb (closer d2 point) result = true)
      by (apply existsb_exists; exists existing; split; assumption).
    congruence.
  - unfold closer in Hc. fold (distSq point existing) in Hc.
    destruct (Qlt_le_dec (distSq point existing) d2); [discriminate | assumption].
Qed.

(** A point that fails the test is close to some retained point. *)
Lemma tooClose_true (d2 : Q) (result : list P2.t) (point : P2.t) :
  tooClose d2 result point = true ->
  exists existing, In existing result /\ distSq point existing < d2.
Proof.
  unfold tooClose. intros H. apply existsb_exists in H.
  destruct H as (existing & Hin & Hc). exists existing. split; [exact Hin|].
  unfold closer in Hc. fold (distSq point existing) in Hc.
  destruct (Qlt_le_dec (distSq point existing) d2); [assumption | discriminate].
Qed.

Lemma Spread_nil (d2 : Q) : Spread d2 [].
Proof. intros i j p q _ Hi. destruct i; discriminate. Qed.

Lemma Spread_snoc (d2 : Q) (l : list P2.t) (p : P2.t) :
  Spread d2 l -> (forall q, In q l -> d2 <= distSq p q) -> Spread d2 (l ++ [p]).
Proof.
  intros Hl Hp i j a b Hij Hi Hj.
  assert (Hlen : forall k c, nth_error (l ++ [p]) k = Some c ->
            (k < List.length l)%nat /\ nth_error l k = Some c \/
            k = List.length l /\ c = p).
  { intros k c Hk. destruct (Nat.lt_ge_cases k (List.length l)) as [Hlt|Hge].
    - left. split; [exact Hlt|]. rewrite nth_error_app1 in Hk; assumption.
    - right. rewrite nth_error_app2 in Hk by exact Hge.
      destruct (k - List.length l)%nat as [|m] eqn:E; simpl in Hk.
      + split; [lia | congruence].
      + destruct m; discriminate. }
  destruct (Hlen i a Hi) as [[Hil Hia]|[Hil Hia]];
    destruct (Hlen j b Hj) as [[Hjl Hjb]|[Hjl Hjb]]; subst.
  - exact (Hl i j a b Hij Hia Hjb).
  - rewrite distSq_sym. apply Hp. eapply nth_error_In; exact Hia.
  - apply Hp. eapply nth_error_In; exact Hjb.
  - lia.
Qed.

Lemma visit_Spread (d2 : Q) (result : list P2.t) (point : P2.t) :
  Spread d2 result -> Spread d2 (visit d2 result point).
Proof.
  intros Hs. unfold visit. destruct (tooClose d2 result point) eqn:Ht.
  - exact Hs.
  - apply Spread_snoc; [exact Hs | apply tooClose_false; exact Ht].
Qed.

Lemma fold_visit_Spread (d2 : Q) (points result : list P2.t) :
  Spread d2 result -> Spread d2 (fold_left (visit d2) points result).
Proof.
  revert result. induction points as [|p points IH]; intros result Hs; simpl.
  - exact Hs.
  - apply IH, visit_Spread, Hs.
Qed.

Lemma Subseq_refl {A : Type} (l : list A) : Subseq l l.
Proof. induction l; constructor; assumption. Qed.

Lemma Subseq_nil_l {A : Type} (l : list A) : Subseq [] l.
Proof. induction l; constructor; assumption. Qed.

Lemma Subseq_app {A : Type} (l1 m1 l2 m2 : list A) :
  Subseq l1 m1 -> Subseq l2 m2 -> Subseq (l1 ++ l2) (m1 ++ m2).
Proof.
  intros H1 H2. induction H1; simpl; try exact H2; constructor; assumption.
Qed.

(** The scan only appends: what it returns is the retained points so far
    followed by some of the scanned points, in the order of the scan. *)
Lemma fold_visit_appends (d2 : Q) (points result : list P2.t) :
  exists kept, fold_left (visit d2) points result = result ++ kept /\
               Subseq kept points.
Proof.
  revert result. induction points as [|p points IH]; intros result; simpl.
  - exists []. split; [symmetry; apply app_nil_r | constructor].
  - destruct (tooClose d2 result p) eqn:Ht.
    + replace (visit d2 result p) with result
        by (unfold visit; rewrite Ht; reflexivity).
      destruct (IH result) as (kept & E & Hk).
      exists kept. split; [exact E | constructor; exact Hk].
    + replace (visit d2 result p) with (result ++ [p])
        by (unfold visit; rewrite Ht; reflexivity).
      destruct (IH (result ++ [p])) as (kept & E & Hk).
      exists (p :: kept). split; [rewrite E, <- app_assoc; reflexivity|].
      constructor; exact Hk.
Qed.

Lemma removeOverlapping_app (l1 l2 : list P2.t) (minDistance : Q) :
  removeOverlapping (l1 ++ l2) minDistance =
  fold_left (visit (minDistance * minDistance)) l2 (removeOverlapping l1 minDistance).
Proof. unfold removeOverlapping. apply fold_left_app. Qed.

(** C6, as stated, fails in its second half: the point seen first of two
    conflicting input points may itself have been dropped before.  With
    spacing 2 (threshold 1) and the input [(0, 0); (3/5, 0); (6/5, 0)] the
    second point is dropped for the first, and the third, which conflicts
    with the second only, is retained. *)
Lemma removeOverlapping_first_seen_may_be_dropped :
  removeOverlapping [P2.mk 0 0; P2.mk (3 # 5) 0; P2.mk (6 # 5) 0] (2 / 2)
    = [P2.mk 0 0; P2.mk (6 # 5) 0] /\
  ~ firstSeenRetained [P2.mk 0 0; P2.mk (3 # 5) 0; P2.mk (6 # 5) 0] 2.
Proof.
  split; [vm_compute; reflexivity|].
  intros H.
  specialize (H 1%nat 2%nat (P2.mk (3 # 5) 0) (P2.mk (6 # 5) 0)).
  assert (Hin : In (P2.mk (3 # 5) 0) [P2.mk 0 0; P2.mk (6 # 5) 0]).
  { apply H; [lia | reflexivity | reflexivity | reflexivity]. }
  simpl in Hin. destruct Hin as [E|[E|[]]]; discriminate E.
Qed.

(** C6, amended: after [removeOverlapping] with threshold [s / 2] any two
    retained points at different positions are at squared distance at
    least [(s / 2)²]; the retained points are input points in input order;
    and the scan is greedy: the points retained from a prefix of the input
    stay retained, and the next input point is dropped exactly when it is
    closer than the threshold to one of them. *)
Theorem removeOverlapping_spread_and_greedy (points : list P2.t) (s : Q) :
  let minDistSq := (s / 2) * (s / 2) in
  let out := removeOverlapping points (s / 2) in
  mergeStep true points s = out /\
  Spread minDistSq out /\
  Subseq out points /\
  forall l1 q l2, points = l1 ++ q :: l2 ->
    let kept := removeOverlapping l1 (s / 2) in
    (exists rest,
       out = (if tooClose minDistSq kept q then kept else kept ++ [q]) ++ rest) /\
    (tooClose minDistSq kept q = true <->
     exists p, In p kept /\ distSq q p < minDistSq).
Proof.
  intros minDistSq out. split; [|split; [|split]].
  - unfold mergeStep. destruct points; reflexivity.
  - apply fold_visit_Spread, Spread_nil.
  - destruct (fold_visit_appends minDistSq points []) as (kept & E & Hk).
    unfold out, removeOverlapping. fold minDistSq. rewrite E. exact Hk.
  - intros l1 q l2 Hp kept. split.
    + unfold out. rewrite Hp, removeOverlapping_app. fold minDistSq. simpl.
      fold kept.
      destruct (fold_visit_appends minDistSq l2 (visit minDistSq kept q))
        as (rest & E & _).
      exists rest. exact E.
    + split; [apply tooClose_true|].
      intros (p & Hin & Hd).
      destruct (tooClose minDistSq kept q) eqn:Ht; [reflexivity|].
      pose proof (tooClose_false _ _ _ Ht p Hin) as Hge.
      exfalso. apply (Qlt_not_le _ _ Hd Hge).
Qed.

End OverlapFacts.

(** * Properties of the raster sampler *)

Section RasterFacts.

Import Raster.

Section AnySum.
Context {numbers : NumberSum}.



(** Once the loop has ended, more fuel changes nothing. *)
Lemma loopValues_more (bound step : Q) :
  forall fuel fuel' v vs, (fuel <= fuel')%nat ->
    loopValues fuel bound step v = Some vs ->
    loopValues fuel' bound step v = Some vs.
Proof.
  unfold loopValues.
  induction fuel as [|fuel IH]; intros fuel' v vs Hle E; [discriminate E|].
  destruct fuel' as [|fuel']; [lia|]. simpl in *.
  destruct (Qlt_le_dec v bound); [|exact E].
  destruct (forLoop fuel bound step (fun u => Some [u]) (addNum v step))
    as [rest|] eqn:Er; [|discriminate E].
  rewrite (IH fuel' _ rest); [exact E | lia | exact Er].
Qed.







Lemma inject_nat_succ (k : nat) :
  inject_Z (Z.of_nat (S k)) == inject_Z (Z.of_nat k) + 1.
Proof. rewrite Nat2Z.inj_succ. unfold Z.succ. rewrite inject_Z_plus. reflexivity. Qed.

Lemma inject_nat_nonneg (k : nat) : 0 <= inject_Z (Z.of_nat k).
Proof. change 0 with (inject_Z 0). rewrite <- Zle_Qle. lia. Qed.

(** [turns] multiples of a positive step reach the bound. *)
Lemma turns_reach (bound step : Q) :
  0 < step -> bound <= inject_Z (Z.of_nat (turns bound step)) * step.
Proof.
  intros Hs. unfold turns.
  set (c := Qceiling (bound / step)).
  assert (Hc : bound / step <= inject_Z c) by apply Qle_ceiling.
  assert (Hn : inject_Z c <= inject_Z (Z.of_nat (Z.to_nat c))).
  { rewrite <- Zle_Qle. lia. }
  assert (Hb : bound == bound / step * step) by (field; lra).
  rewrite Hb at 1.
  apply Qmult_le_compat_r; [|lra]. eapply Qle_trans; eassumption.
Qed.

(** A loop whose additions advance by half a step or more ends: from a
    value [v] that is [fuel] half steps or less below the bound it takes
    at most [fuel] turns. *)
Lemma advances_ends_from (bound step : Q) :
  0 < step -> advances bound step ->
  forall fuel v, 0 <= v ->
    bound <= v + inject_Z (Z.of_nat fuel) * (step / 2) ->
    exists vs, loopValues (S fuel) bound step v = Some vs.
Proof.
  intros Hs Hadv. unfold loopValues.
  induction fuel as [|fuel IH]; intros v Hv Hb; simpl.
  - destruct (Qlt_le_dec v bound) as [Hlt|_]; [|exists []; reflexivity].
    exfalso. change (inject_Z (Z.of_nat 0)) with 0 in Hb. lra.
  - destruct (Qlt_le_dec v bound) as [Hlt|_]; [|exists []; reflexivity].
    pose proof (Hadv v Hv Hlt) as Hstep.
    destruct (IH (addNum v step)) as (rest & Er).
    + qlra.
    + rewrite inject_nat_succ in Hb. qlra.
    + simpl in Er. rewrite Er. eexists. reflexivity.
Qed.

(** With a positive step that advances, the loop from 0 ends within
    twice [turns] turns, and one more for the last test. *)
Lemma advances_loopEnds (bound step : Q) (fuel : nat) :
  0 < step -> advances bound step ->
  (2 * turns bound step < fuel)%nat ->
  loopEnds fuel bound step = true.
Proof.
  intros Hs Hadv Hfuel. unfold loopEnds.
  destruct (advances_ends_from bound step Hs Hadv (2 * turns bound step) 0)
    as (vs & E).
  - apply Qle_refl.
  - pose proof (turns_reach bound step Hs) as Hr.
    rewrite Nat2Z.inj_mul, inject_Z_mult. change (inject_Z (Z.of_nat 2)) with 2.
    qlra.
  - rewrite (loopValues_more bound step (S (2 * turns bound step)) fuel 0 vs);
      [reflexivity | lia | exact E].
Qed.



Section WithCanvas.
Context {ctx : Type} `{Canvas2D ctx}.





End WithCanvas.

End AnySum.

(** The nearest integer is at most one half below. *)
Lemma roundHalfEven_ge (x : Q) : x - (1 # 2) <= inject_Z (roundHalfEven x).
Proof.
  unfold roundHalfEven.
  pose proof (Qfloor_le x) as Hf. pose proof (Qlt_floor x) as Hc.
  rewrite inject_Z_plus in Hc. change (inject_Z 1) with 1 in Hc.
  destruct (Qcompare (x - inject_Z (Qfloor x)) (1 # 2)) eqn:E.
  - apply Qeq_alt in E.
    destruct (Z.even (Qfloor x));
      [|rewrite inject_Z_plus; change (inject_Z 1) with 1]; lra.
  - apply Qlt_alt in E. lra.
  - apply Qgt_alt in E. rewrite inject_Z_plus. change (inject_Z 1) with 1. lra.
Qed.

Lemma two_power_pos (e : Z) : 0 < 2 ^ e.
Proof. apply Qpower_0_lt. lra. Qed.

(** [log2Floor a] is an exponent of a power of 2 that is not above [a]. *)
Lemma log2Floor_le (a : Q) : 0 < a -> 2 ^ log2Floor a <= a.
Proof.
  intros Ha. unfold log2Floor.
  set (e := (Z.log2 (Qnum a) - Z.log2 (Zpos (Qden a)))%Z).
  destruct (Qle_bool (2 ^ e) a) eqn:E; [apply Qle_bool_iff; exact E|].
  destruct a as [n d]. cbn [Qnum Qden] in e.
  assert (Hn : (0 < n)%Z) by (unfold Qlt in Ha; simpl in Ha; lia).
  destruct (Z.log2_spec n Hn) as [Hp _].
  destruct (Z.log2_spec (Zpos d) (Pos2Z.is_pos d)) as [_ Hq].
  pose proof (Z.log2_nonneg n) as Hp0.
  pose proof (Z.log2_nonneg (Zpos d)) as Hq0.
  replace (e - 1)%Z with (Z.log2 n + - Z.succ (Z.log2 (Zpos d)))%Z
    by (unfold e; lia).
  rewrite Qpower_plus by (unfold Qeq; simpl; lia). rewrite Qpower_opp.
  change 2 with (inject_Z 2).
  rewrite <- !Zpower_Qpower by lia.
  set (P := (2 ^ Z.log2 n)%Z) in *.
  set (D := (2 ^ Z.succ (Z.log2 (Zpos d)))%Z) in *.
  rewrite Qmake_Qdiv.
  assert (HP : inject_Z P <= inject_Z n) by (rewrite <- Zle_Qle; exact Hp).
  assert (HD : inject_Z (Zpos d) <= inject_Z D) by (rewrite <- Zle_Qle; lia).
  assert (Hd : 0 < inject_Z (Zpos d)) by (change 0 with (inject_Z 0); rewrite <- Zlt_Qlt; lia).
  assert (HP0 : 0 < inject_Z P).
  { change 0 with (inject_Z 0). rewrite <- Zlt_Qlt. unfold P. apply Z.pow_pos_nonneg; lia. }
  apply Qle_shift_div_l; [exact Hd|].
  apply Qle_trans with (inject_Z P); [|exact HP].
  assert (E1 : inject_Z P * / inject_Z D * inject_Z (Zpos d)
               == inject_Z P * inject_Z (Zpos d) / inject_Z D).
  { unfold Qdiv. ring. }
  rewrite E1. apply Qle_shift_div_r; [lra|]. nra.
Qed.

(** Rounding a positive number to a double takes off at most half a unit
    in the last place. *)
Lemma roundDouble_ge (q : Q) :
  0 < q -> q - 2 ^ lastPlace (Qabs q) / 2 <= roundDouble q.
Proof.
  intros Hq. unfold roundDouble.
  assert (Hn : (0 < Qnum q)%Z) by (unfold Qlt in Hq; simpl in Hq; lia).
  destruct (Qnum q) as [|p|p] eqn:En; try lia.
  change (Z.pos p <? 0)%Z with false. cbv iota.
  rewrite Qred_correct.
  set (e := lastPlace (Qabs q)).
  pose proof (roundHalfEven_ge (Qabs q / 2 ^ e)) as Hm.
  pose proof (two_power_pos e) as He.
  set (m := roundHalfEven (Qabs q / 2 ^ e)) in *.
  assert (Ea : Qabs q == q) by (apply Qabs_pos; lra).
  assert (Ex : Qabs q / 2 ^ e * 2 ^ e == q) by (rewrite <- Ea at 2; field; lra).
  set (P := 2 ^ e) in *. set (x := Qabs q / P) in *.
  assert (0 <= (inject_Z m - x + (1 # 2)) * P) by (apply Qmult_le_0_compat; lra).
  qlra.
Qed.

(** The sum of doubles advances by at least half the step as long as the
    step is at least the least positive double [2^-1074] and the bound
    is within [2^52] steps. *)
Lemma doubles_advances (bound step : Q) :
  2 ^ (-1074) <= step -> bound + step <= 2 ^ 52 * step ->
  advances (numbers := doubles) bound step.
Proof.
  intros Hmin Hmax v Hv Hlt.
  pose proof (two_power_pos (-1074)) as Hp.
  change (addNum v step) with (roundDouble (v + step)).
  assert (Hq : 0 < v + step) by lra.
  pose proof (roundDouble_ge (v + step) Hq) as Hr.
  assert (Hulp : 2 ^ lastPlace (Qabs (v + step)) <= step).
  { unfold lastPlace.
    assert (Ea : Qabs (v + step) == v + step) by (apply Qabs_pos; lra).
    assert (Ha : 0 < Qabs (v + step)) by lra.
    pose proof (log2Floor_le _ Ha) as Hl.
    set (l := log2Floor (Qabs (v + step))) in *.
    destruct (Z.max_spec (l - 52) (-1074)) as [[_ ->]|[_ ->]]; [exact Hmin|].
    replace (l - 52)%Z with (l + Z.opp 52)%Z by lia.
    rewrite Qpower_plus by (unfold Qeq; simpl; lia). rewrite Qpower_opp.
    pose proof (two_power_pos 52) as Hk. set (k := 2 ^ 52) in *.
    apply Qle_shift_div_r; [exact Hk|]. lra. }
  qlra.
Qed.

(** On doubles the loop ends: for a step of at least [2^-1074] and a
    bound within [2^52] steps, within twice [turns] turns and one. *)
Lemma doubles_loopEnds (bound step : Q) (fuel : nat) :
  2 ^ (-1074) <= step -> bound + step <= 2 ^ 52 * step ->
  (2 * turns bound step < fuel)%nat ->
  loopEnds (numbers := doubles) fuel bound step = true.
Proof.
  intros Hmin Hmax Hfuel.
  pose proof (two_power_pos (-1074)) as Hp.
  apply advances_loopEnds; [lra | apply doubles_advances; assumption | exact Hfuel].
Qed.

(** The exact sum advances by a whole step. *)
Lemma exactSums_advances (bound step : Q) :
  0 < step -> advances (numbers := exactSums) bound step.
Proof. intros Hs v _ _. simpl. qlra. Qed.

(** The sum of doubles drifts from the multiples of the step: with the
    double next to 6.4 as the step the loop over a width of 800 takes 126
    turns, not 125, and turn 10 reads the pixel 63, not 64. *)
Example doubles_drift :
  let step := roundDouble (64 # 10) in
  option_map (fun xs => (List.length xs, Qfloor (nth 10 xs 0)))
             (loopValues (numbers := doubles) 200 800 step 0)
  = Some (126%nat, 63%Z) /\
  option_map (fun xs => (List.length xs, Qfloor (nth 10 xs 0)))
             (loopValues (numbers := exactSums) 200 800 (64 # 10) 0)
  = Some (125%nat, 64%Z).
Proof. split; vm_compute; reflexivity. Qed.

(** C4: the test of the scan is [alpha > 128], so a pixel with alpha 128,
    which is above half of the greatest alpha 255, is not retained.  On a
    canvas of one pixel with alpha 128, scanned with step 1, the scan
    reads the pixel and returns no point. *)
Theorem samplePixels_drops_alpha_128 :
  samplePixels (numbers := doubles) 2 [255; 255; 255; 128]%Z 1 1 1 = Some [] /\
  scanned (numbers := doubles) 1 1 1 0 0 /\
  aboveHalf (alphaAt [255; 255; 255; 128]%Z 1 0 0) /\
  ~ retainsAboveHalf (numbers := doubles) [255; 255; 255; 128]%Z 1 1 1.
Proof.
  set (data := [255; 255; 255; 128]%Z).
  assert (Hrun : samplePixels (numbers := doubles) 2 data 1 1 1 = Some [])
    by (vm_compute; reflexivity).
  assert (Hsc : scanned (numbers := doubles) 1 1 1 0 0).
  { exists 2%nat, [0], [0], 0, 0. repeat split; try (vm_compute; reflexivity);
      left; reflexivity. }
  assert (Hab : aboveHalf (alphaAt data 1 0 0)).
  { exists 128%Z. split; [reflexivity | lia]. }
  repeat split; try assumption.
  intros Hclaim. apply (Hclaim 2%nat [] Hrun 0%Z 0%Z Hsc) in Hab.
  destruct Hab.
Qed.


End RasterFacts.

(** * Properties of the hover field *)

Section HoverFacts.

Import Hover.
Local Open Scope R_scope.

(** At or beyond the radius the scale is 1. *)
Lemma scaleAt_outside (textData : TextData) (distance : R) :
  distance >= hoverRadius textData -> scaleAt textData distance = 1.
Proof.
  intros Hd. unfold scaleAt.
  destruct (Rge_dec distance (hoverRadius textData)); [reflexivity | contradiction].
Qed.

(** The scale inside the radius, for an intensity of at least 1. *)
Lemma scaleAt_grow (textData : TextData) (distance : R) :
  0 < hoverRadius textData -> distance < hoverRadius textData ->
  hoverIntensity textData >= 1 ->
  scaleAt textData distance =
  1 + (hoverIntensity textData - 1) * (1 - distance / hoverRadius textData).
Proof.
  intros Hr Hd Hi. unfold scaleAt.
  destruct (Rge_dec distance (hoverRadius textData)) as [Hge|_]; [lra|].
  destruct (Rge_dec (hoverIntensity textData) 1) as [_|Hn]; [|contradiction].
  assert (Hnd : distance / hoverRadius textData < 1).
  { apply Rmult_lt_reg_r with (hoverRadius textData); [exact Hr|].
    unfold Rdiv. rewrite Rmult_assoc, Rinv_l by lra. lra. }
  apply Rmax_right.
  assert (0 <= (hoverIntensity textData - 1) * (1 - distance / hoverRadius textData))
    by (apply Rmult_le_pos; lra).
  lra.
Qed.

(** The least scale of the shrinking branch lies between 0.1 and 1. *)
Lemma minScale_bounds (intensity : R) :
  1 / 10 <= Rmax (1 / 10) (1 / (Rabs intensity + 1)) <= 1.
Proof.
  split; [apply Rmax_l|].
  apply Rmax_lub; [lra|].
  pose proof (Rabs_pos intensity) as Hp.
  apply Rmult_le_reg_r with (Rabs intensity + 1); [lra|].
  unfold Rdiv. rewrite Rmult_assoc, Rinv_l by lra. lra.
Qed.

(** The scale inside the radius, for an intensity below 1. *)
Lemma scaleAt_shrink (textData : TextData) (distance : R) :
  distance < hoverRadius textData -> hoverIntensity textData < 1 ->
  scaleAt textData distance =
  Rmax (1 / 10)
    (1 - (1 - Rmax (1 / 10) (1 / (Rabs (hoverIntensity textData) + 1)))
         * (1 - distance / hoverRadius textData)).
Proof.
  intros Hd Hi. unfold scaleAt.
  destruct (Rge_dec distance (hoverRadius textData)) as [Hge|_]; [lra|].
  destruct (Rge_dec (hoverIntensity textData) 1) as [Hge|_]; [lra|].
  reflexivity.
Qed.

Lemma div_le_div (a b r : R) : 0 < r -> a <= b -> a / r <= b / r.
Proof.
  intros Hr Hab. unfold Rdiv. apply Rmult_le_compat_r; [|exact Hab].
  left. apply Rinv_0_lt_compat. exact Hr.
Qed.

Lemma div_lt_one (a r : R) : 0 < r -> a < r -> a / r < 1.
Proof.
  intros Hr Ha. apply Rmult_lt_reg_r with r; [exact Hr|].
  unfold Rdiv. rewrite Rmult_assoc, Rinv_l by lra. lra.
Qed.

(** For an intensity of at least 1 the scale is at least 1 and does not
    grow with the distance. *)
Lemma scaleAt_grow_antitone (textData : TextData) (d1 d2 : R) :
  0 < hoverRadius textData -> hoverIntensity textData >= 1 -> d1 <= d2 ->
  1 <= scaleAt textData d2 <= scaleAt textData d1.
Proof.
  intros Hr Hi Hd.
  destruct (Rlt_le_dec d2 (hoverRadius textData)) as [H2|H2].
  - assert (H1 : d1 < hoverRadius textData) by lra.
    rewrite !scaleAt_grow by assumption.
    pose proof (div_le_div d1 d2 _ Hr Hd) as Hn.
    pose proof (div_lt_one d2 _ Hr H2) as Hn2.
    assert (0 <= (hoverIntensity textData - 1) * (1 - d2 / hoverRadius textData))
      by (apply Rmult_le_pos; lra).
    assert ((hoverIntensity textData - 1) * (1 - d2 / hoverRadius textData) <=
            (hoverIntensity textData - 1) * (1 - d1 / hoverRadius textData))
      by (apply Rmult_le_compat_l; lra).
    lra.
  - rewrite (scaleAt_outside textData d2) by lra.
    split; [lra|].
    destruct (Rlt_le_dec d1 (hoverRadius textData)) as [H1|H1].
    + rewrite scaleAt_grow by assumption.
      pose proof (div_lt_one d1 _ Hr H1) as Hn1.
      assert (0 <= (hoverIntensity textData - 1) * (1 - d1 / hoverRadius textData))
        by (apply Rmult_le_pos; lra).
      lra.
    + rewrite scaleAt_outside by lra. lra.
Qed.

(** For an intensity below 1 the scale is at most 1 and does not shrink
    with the distance. *)
Lemma scaleAt_shrink_monotone (textData : TextData) (d1 d2 : R) :
  0 < hoverRadius textData -> hoverIntensity textData < 1 -> d1 <= d2 ->
  scaleAt textData d1 <= scaleAt textData d2 <= 1.
Proof.
  intros Hr Hi Hd.
  pose proof (minScale_bounds (hoverIntensity textData)) as [Hm1 Hm2].
  destruct (Rlt_le_dec d2 (hoverRadius textData)) as [H2|H2].
  - assert (H1 : d1 < hoverRadius textData) by lra.
    rewrite !scaleAt_shrink by assumption.
    set (m := Rmax (1 / 10) (1 / (Rabs (hoverIntensity textData) + 1))) in *.
    pose proof (div_le_div d1 d2 _ Hr Hd) as Hn.
    pose proof (div_lt_one d2 _ Hr H2) as Hn2.
    assert (0 <= (1 - m) * (1 - d2 / hoverRadius textData))
      by (apply Rmult_le_pos; lra).
    assert ((1 - m) * (1 - d2 / hoverRadius textData) <=
            (1 - m) * (1 - d1 / hoverRadius textData))
      by (apply Rmult_le_compat_l; lra).
    split.
    + apply Rmax_lub; [apply Rmax_l|].
      eapply Rle_trans; [|apply Rmax_r]. lra.
    + apply Rmax_lub; lra.
  - rewrite (scaleAt_outside textData d2) by lra.
    split; [|lra].
    destruct (Rlt_le_dec d1 (hoverRadius textData)) as [H1|H1].
    + rewrite scaleAt_shrink by assumption.
      set (m := Rmax (1 / 10) (1 / (Rabs (hoverIntensity textData) + 1))) in *.
      pose proof (div_lt_one d1 _ Hr H1) as Hn1.
      assert (0 <= (1 - m) * (1 - d1 / hoverRadius textData))
        by (apply Rmult_le_pos; lra).
      apply Rmax_lub; lra.
    + rewrite scaleAt_outside by lra. lra.
Qed.

(** The scenario of the specification: intensity 2 and radius 100 give
    scale 2 at distance 0 and scale 1 at distance 100. *)
Example scaleAt_intensity_two :
  scaleAt (mkTextData true 100 2 None None) 0 = 2 /\
  scaleAt (mkTextData true 100 2 None None) 100 = 1.
Proof.
  split.
  - rewrite scaleAt_grow by (simpl; lra). simpl. lra.
  - apply scaleAt_outside. simpl. lra.
Qed.

(** Shrinking: intensity -4 gives the least scale
    [max 0.1 (1 / (4 + 1)) = 1 / 5] at the cursor. *)
Example scaleAt_shrink_at_cursor :
  scaleAt (mkTextData true 100 (-4) None None) 0 = 1 / 5.
Proof.
  rewrite scaleAt_shrink by (cbn [hoverRadius hoverIntensity]; lra).
  cbn [hoverRadius hoverIntensity].
  rewrite (Rabs_left (-4)) by lra.
  replace (- -4 + 1) with 5 by lra.
  rewrite (Rmax_right (1 / 10) (1 / 5)) by lra.
  rewrite Rmax_right by lra. lra.
Qed.

(** C7: with the cursor at [(mx, my)], a point whose screen distance to
    the cursor is at least the hover radius has scale exactly 1, whatever
    the intensity. *)
Theorem getHoverScale3D_one_outside_radius (camera : Camera)
    (canvasWidth canvasHeight : R) (textData : TextData)
    (pointX pointY mx my : R) :
  mouseX textData = Some mx -> mouseY textData = Some my ->
  screenDistance camera canvasWidth canvasHeight pointX pointY mx my
    >= hoverRadius textData ->
  getHoverScale3D camera canvasWidth canvasHeight textData pointX pointY = 1.
Proof.
  intros Hx Hy Hd. unfold getHoverScale3D. rewrite Hx, Hy.
  destruct (negb (hoverEffectEnabled textData)); [reflexivity|].
  apply scaleAt_outside. exact Hd.
Qed.

(** C8: with the cursor at [(mx, my)] and a positive radius, of two points
    the one nearer to the cursor has its scale at least as far from 1:
    for an intensity of at least 1 the scale is at least 1 and grows toward
    the cursor, for an intensity below 1 it is at most 1 and shrinks
    toward the cursor. *)
Theorem getHoverScale3D_monotone_in_distance (camera : Camera)
    (canvasWidth canvasHeight : R) (textData : TextData)
    (x1 y1 x2 y2 mx my : R) :
  mouseX textData = Some mx -> mouseY textData = Some my ->
  0 < hoverRadius textData ->
  screenDistance camera canvasWidth canvasHeight x1 y1 mx my <=
  screenDistance camera canvasWidth canvasHeight x2 y2 mx my ->
  let s1 := getHoverScale3D camera canvasWidth canvasHeight textData x1 y1 in
  let s2 := getHoverScale3D camera canvasWidth canvasHeight textData x2 y2 in
  Rabs (s2 - 1) <= Rabs (s1 - 1) /\
  (hoverEffectEnabled textData = true ->
   (hoverIntensity textData >= 1 -> 1 <= s2 <= s1) /\
   (hoverIntensity textData < 1 -> s1 <= s2 <= 1)).
Proof.
  intros Hx Hy Hr Hd s1 s2. unfold s1, s2, getHoverScale3D. rewrite Hx, Hy.
  set (d1 := screenDistance camera canvasWidth canvasHeight x1 y1 mx my) in *.
  set (d2 := screenDistance camera canvasWidth canvasHeight x2 y2 mx my) in *.
  destruct (hoverEffectEnabled textData); simpl.
  - assert (Hg : hoverIntensity textData >= 1 ->
                 1 <= scaleAt textData d2 <= scaleAt textData d1)
      by (intros Hi; apply scaleAt_grow_antitone; assumption).
    assert (Hs : hoverIntensity textData < 1 ->
                 scaleAt textData d1 <= scaleAt textData d2 <= 1)
      by (intros Hi; apply scaleAt_shrink_monotone; assumption).
    split; [|intros _; split; assumption].
    destruct (Rge_dec (hoverIntensity textData) 1) as [Hi|Hi].
    + destruct (Hg Hi). rewrite !Rabs_pos_eq by lra. lra.
    + assert (Hi' : hoverIntensity textData < 1) by lra.
      destruct (Hs Hi'). rewrite !Rabs_left1 by lra. lra.
  - split; [lra | intros E; discriminate E].
Qed.

End HoverFacts.

(** * Properties of the auto-motion generator *)

Section AutoMotionFacts.

Import AutoMotion.
Local Open Scope R_scope.

(** C9: in the circle pattern, at a time where the cosine of the phase is 1
    and its sine is 0, the position is
    [(centerX + 0.3 * canvasWidth * sizeMultiplier, centerY)] with
    [sizeMultiplier = autoSize * 0.1], and the state is unchanged. *)
Theorem getAutoPosition_circle_at_phase_zero (random : nat -> R)
    (canvasWidth canvasHeight : R) (textData : TextData)
    (cachedPoints : list Point) (time : R) (s : State) :
  let t := time * (autoSpeed textData * (3 / 10000)) in
  let sizeMultiplier := autoSize textData * (1 / 10) in
  cos t = 1 -> sin t = 0 ->
  getAutoPosition random canvasWidth canvasHeight textData cachedPoints
                  time "circle" s =
  (mkPosition (canvasWidth / 2 + 3 / 10 * canvasWidth * sizeMultiplier)
              (canvasHeight / 2), s).
Proof.
  intros t sizeMultiplier Hc Hs. unfold getAutoPosition. simpl.
  fold t. rewrite Hc, Hs. f_equal. f_equal; unfold sizeMultiplier; lra.
Qed.

(** The random step on a state that is not initialised, when the interval
    has not passed. *)
Lemma randomStep_first_no_reroll (random : nat -> R) (canvasWidth canvasHeight : R)
    (textData : TextData) (centerX centerY sizeMultiplier time : R) (s : State) :
  randomInitialized s = false ->
  ~ intervalPassed textData time (randomLastTime s) ->
  let rangeX := canvasWidth * (4 / 10) * sizeMultiplier in
  let rangeY := canvasHeight * (35 / 100) * sizeMultiplier in
  let easeSpeed := 2 / 100 + autoSpeed textData * (8 / 1000) in
  let tx := centerX + (random (randomCalls s) * 2 - 1) * rangeX in
  let ty := centerY + (random (S (randomCalls s)) * 2 - 1) * rangeY in
  fst (randomStep random canvasWidth canvasHeight textData centerX centerY
                  sizeMultiplier time s)
  = mkPosition (centerX + (tx - centerX) * easeSpeed)
               (centerY + (ty - centerY) * easeSpeed).
Proof.
  intros Hinit Hno rangeX rangeY easeSpeed tx ty.
  unfold randomStep. rewrite Hinit. simpl.
  destruct (intervalPassed_dec textData time (randomLastTime s))
    as [Hgt|_]; [contradiction|].
  reflexivity.
Qed.

(** C3, as stated, fails: the first call sets the current position to the
    centre but the target to a random point, and then eases once.  On an
    800 x 600 canvas with speed 1 and size 5, at time 16 from the initial
    state and with [Math.random] returning 0, the target is [(240, 195)]
    and the position returned is [(395.52, 297.06)], not [(400, 300)]. *)
Lemma getAutoPosition_random_first_call_off_centre :
  fst (getAutoPosition (fun _ => 0) 800 600 (mkTextData 1 5) [] 16 "random"
                       initialState)
    = mkPosition (39552 / 100) (29706 / 100) /\
  ~ firstRandomAtCentre (fun _ => 0) 800 600 (mkTextData 1 5) [] 16 initialState.
Proof.
  assert (E : fst (getAutoPosition (fun _ => 0) 800 600 (mkTextData 1 5) [] 16
                                   "random" initialState)
              = mkPosition (39552 / 100) (29706 / 100)).
  { unfold getAutoPosition. simpl String.eqb. cbv iota.
    etransitivity.
    { apply (randomStep_first_no_reroll (fun _ => 0) 800 600 (mkTextData 1 5)
               (800 / 2) (600 / 2) (5 * (1 / 10)) 16 initialState);
        [reflexivity | unfold intervalPassed; simpl; lra]. }
    simpl. f_equal; lra. }
  split; [exact E|].
  intros H. unfold firstRandomAtCentre in H. rewrite E in H.
  specialize (H eq_refl). apply (f_equal x) in H. simpl in H. lra.
Qed.

(** C3, amended: the first call in the random pattern sets the current
    position to the canvas centre and the target to a random point of the
    rectangle around it, drawn from the next two random numbers.  When
    the interval has passed, that is when [autoSpeed] is not 0 and more
    than [3000 / autoSpeed] ms lie between the last re-roll time and the
    call, the target is rolled once more from the two random numbers
    after these and the re-roll time becomes the time of the call;
    otherwise the first roll stands and the re-roll time is kept.  The
    current position then moves one easing step from the centre toward
    the target, and the position returned is that current position,
    [centre + (target - centre) * easeSpeed]. *)
Theorem getAutoPosition_random_first_call (random : nat -> R)
    (canvasWidth canvasHeight : R) (textData : TextData)
    (cachedPoints : list Point) (time : R) (s : State) :
  randomInitialized s = false ->
  let centerX := canvasWidth / 2 in
  let centerY := canvasHeight / 2 in
  let rangeX := canvasWidth * (4 / 10) * (autoSize textData * (1 / 10)) in
  let rangeY := canvasHeight * (35 / 100) * (autoSize textData * (1 / 10)) in
  let easeSpeed := 2 / 100 + autoSpeed textData * (8 / 1000) in
  let roll := fun k : nat =>
    mkPosition (centerX + (random k * 2 - 1) * rangeX)
               (centerY + (random (S k) * 2 - 1) * rangeY) in
  let r := getAutoPosition random canvasWidth canvasHeight textData cachedPoints
                           time "random" s in
  randomInitialized (snd r) = true /\
  randomCurrent (snd r) = fst r /\
  (intervalPassed textData time (randomLastTime s) ->
   randomTarget (snd r) = roll (2 + randomCalls s)%nat /\
   randomLastTime (snd r) = time /\
   randomCalls (snd r) = (4 + randomCalls s)%nat) /\
  (~ intervalPassed textData time (randomLastTime s) ->
   randomTarget (snd r) = roll (randomCalls s) /\
   randomLastTime (snd r) = randomLastTime s /\
   randomCalls (snd r) = (2 + randomCalls s)%nat) /\
  fst r = mkPosition
            (centerX + (x (randomTarget (snd r)) - centerX) * easeSpeed)
            (centerY + (y (randomTarget (snd r)) - centerY) * easeSpeed).
Proof.
  intros Hinit centerX centerY rangeX rangeY easeSpeed roll r.
  unfold r, getAutoPosition. simpl String.eqb. cbv iota.
  unfold randomStep. rewrite Hinit. simpl negb. cbv iota.
  fold centerX centerY rangeX rangeY easeSpeed.
  simpl randomLastTime.
  destruct (intervalPassed_dec textData time (randomLastTime s)) as [Hgt|Hle];
    simpl.
  - split; [reflexivity|]. split; [reflexivity|].
    split; [intros _; repeat split; reflexivity|].
    split; [intros Hno; contradiction | reflexivity].
  - split; [reflexivity|]. split; [reflexivity|].
    split; [intros Hyes; contradiction|].
    split; [intros _; repeat split; reflexivity | reflexivity].
Qed.

(** In the trace pattern the index stays inside a non-empty list of
    cached points, so the lookup always finds a point. *)
Lemma traceStep_index_in_range (canvasWidth canvasHeight : R)
    (textData : TextData) (cachedPoints : list Point) (position : Position)
    (s : State) :
  cachedPoints <> [] ->
  let r := traceStep canvasWidth canvasHeight textData cachedPoints position s in
  (traceIndex (snd r) < List.length cachedPoints)%nat /\
  exists point, nth_error cachedPoints (traceIndex (snd r)) = Some point /\
    fst r = mkPosition (px point + canvasWidth / 2) (canvasHeight / 2 - py point).
Proof.
  intros Hne r. unfold r, traceStep.
  destruct cachedPoints as [|p0 rest]; [congruence|].
  change (Nat.ltb 0 (List.length (p0 :: rest))) with true. cbv iota.
  set (n := List.length (p0 :: rest)).
  set (index := Nat.modulo _ n).
  assert (Hlt : (index < n)%nat) by (apply Nat.mod_upper_bound; discriminate).
  destruct (nth_error (p0 :: rest) index) as [point|] eqn:E.
  - simpl. split; [exact Hlt|]. exists point. split; [exact E | reflexivity].
  - apply nth_error_None in E. fold n in E. lia.
Qed.

End AutoMotionFacts.

(** * Properties of the shape parser *)

Section ParserFacts.

Import SVGShapeParser.
Local Open Scope string_scope.
Context `{NumberText}.

(** A rect, circle, ellipse or line always has path data, and it is never
    the empty string: whatever its attributes, the element is kept. *)
Lemma elementToPath_shape_kept (element : Element) :
  In (toLowerCase (tagName element)) ["rect"; "circle"; "ellipse"; "line"] ->
  exists c rest,
    elementToPath element = Some (String c rest) /\
    truthyStr (elementToPath element) = true.
Proof.
  intros Hin. unfold elementToPath.
  destruct Hin as [E|[E|[E|[E|[]]]]]; rewrite <- E; simpl String.eqb; cbv iota;
    simpl orb; cbv iota.
  - unfold rectToPath.
    destruct (isZero _ && isZero _); eexists; eexists; split; reflexivity.
  - unfold circleToPath. eexists; eexists; split; reflexivity.
  - unfold ellipseToPath. eexists; eexists; split; reflexivity.
  - unfold lineToPath. eexists; eexists; split; reflexivity.
Qed.

(** A polygon or polyline without [points] has no path data. *)
Lemma elementToPath_polygon_without_points (element : Element) :
  In (toLowerCase (tagName element)) ["polygon"; "polyline"] ->
  getAttribute element "points" = None ->
  elementToPath element = None.
Proof.
  intros Hin Hp. unfold elementToPath.
  destruct Hin as [E|[E|[]]]; rewrite <- E; simpl String.eqb; cbv iota;
    simpl orb; cbv iota; unfold polygonToPath; rewrite Hp; reflexivity.
Qed.

(** The path data of a rect that has [x], [y] and [height] but no [width]:
    every coordinate that adds the width is [NaN]. *)
Lemma rectToPath_without_width (x y h : string) :
  let rect := Elem "rect" [("x", x); ("y", y); ("height", h)] [] in
  let x' := jsOr (parseFloatStr x) (Num 0) in
  let y' := jsOr (parseFloatStr y) (Num 0) in
  let h' := parseFloatStr h in
  rectToPath rect =
    "M" ++ numText x' ++ "," ++ numText y'
    ++ " LNaN," ++ numText y'
    ++ " LNaN," ++ numText (jsAdd y' h')
    ++ " L" ++ numText x' ++ "," ++ numText (jsAdd y' h') ++ " Z".
Proof.
  intros rect x' y' h'. unfold rectToPath. simpl.
  fold x' y' h'.
  assert (Ex : jsAdd x' NaN = NaN) by (destruct x'; reflexivity).
  rewrite Ex. reflexivity.
Qed.

(** C2 fails on the code for rect (and likewise circle and ellipse): in the
    document [<svg><rect x=".." y=".." height=".."/></svg>] the rect has no
    [width], and [extractPaths] still returns one path descriptor for it,
    with [NaN] in its path data. *)
Theorem extractPaths_keeps_rect_without_width (x y h : string) :
  let rect := Elem "rect" [("x", x); ("y", y); ("height", h)] [] in
  getAttribute rect "width" = None /\
  extractPaths (Elem "svg" [] [rect]) = [mkPath (rectToPath rect) "" true true] /\
  exists rest, rectToPath rect = String "M" rest.
Proof.
  intros rect. split; [reflexivity|]. split.
  - unfold extractPaths, supportedElements, querySelectorAll. simpl.
    unfold rect at 1. reflexivity.
  - eexists. unfold rect. rewrite rectToPath_without_width. reflexivity.
Qed.

End ParserFacts.

(** * The theorems at concrete inputs *)

Section Instances.

Import SVGCoordinateNormalizer Raster.

(** Two points inside the view box [0 0 100 100], contained in an
    800 x 600 canvas with padding 0.1. *)
Lemma normalize_contain_within_padded_canvas_example :
  let options := mkOptions (Some "contain"%string) (Some (1 # 10)) (Some 0) (Some 0) in
  let out := normalize [P2.mk 10 20; P2.mk 90 50] (ViewBox.mk 0 0 100 100)
                       (Size.mk 800 600) options in
  bboxWidth out <= 800 * (1 - 2 * (1 # 10)) /\
  bboxHeight out <= 600 * (1 - 2 * (1 # 10)) /\
  Forall (inPaddedCanvasAt (Size.mk 800 600) (1 # 10) (0 / 100 * 800) (0 / 100 * 600))
         out.
Proof.
  apply (normalize_contain_within_padded_canvas
           [P2.mk 10 20; P2.mk 90 50] (ViewBox.mk 0 0 100 100) (Size.mk 800 600)
           (mkOptions (Some "contain"%string) (Some (1 # 10)) (Some 0) (Some 0))).
  - reflexivity.
  - discriminate.
  - reflexivity.
  - reflexivity.
  - vm_compute; discriminate.
  - vm_compute; discriminate.
  - vm_compute; discriminate.
  - repeat constructor; vm_compute; discriminate.
Defined.

(** The fit mode ["none"] leaves the size of the drawing alone. *)
Lemma normalize_other_fitMode_unit_scale_example :
  Forall2 (fun p q =>
             P3.eq q (P3.mk (P2.x p - (0 + 100 / 2) + 0 / 100 * 800)
                            (- (P2.y p - (0 + 100 / 2)) + 0 / 100 * 600) 0))
          [P2.mk 10 20]
          (normalize [P2.mk 10 20] (ViewBox.mk 0 0 100 100) (Size.mk 800 600)
                     (mkOptions (Some "none"%string) None None None)).
Proof.
  apply (normalize_other_fitMode_unit_scale
           [P2.mk 10 20] (ViewBox.mk 0 0 100 100) (Size.mk 800 600)
           (mkOptions (Some "none"%string) None None None) "none"%string).
  - reflexivity.
  - discriminate.
  - discriminate.
  - discriminate.
Defined.


End Instances.

Section RealInstances.

Local Open Scope R_scope.

Lemma sqrt_ge (a r : R) : 0 <= r -> r * r <= a -> sqrt a >= r.
Proof.
  intros Hr Ha. apply Rle_ge.
  rewrite <- (sqrt_square r Hr). apply sqrt_le_1_alt. exact Ha.
Qed.

(** Hover enabled with radius 100 and intensity 2, the cursor at the
    centre of an 800 x 600 canvas, and the point [(300, 0)], which the
    camera of [init] shows 300 pixels to the right of the cursor. *)
Lemma getHoverScale3D_one_outside_radius_example :
  Hover.getHoverScale3D (Hover.orthographic 800 600) 800 600
    (Hover.mkTextData true 100 2 (Some 400) (Some 300)) 300 0 = 1.
Proof.
  apply (getHoverScale3D_one_outside_radius (Hover.orthographic 800 600) 800 600
           (Hover.mkTextData true 100 2 (Some 400) (Some 300)) 300 0 400 300).
  - reflexivity.
  - reflexivity.
  - unfold Hover.screenDistance. simpl. apply sqrt_ge; lra.
Defined.

(** The same cursor, and the points [(50, 0)] and [(80, 0)]. *)
Lemma getHoverScale3D_monotone_in_distance_example :
  let textData := Hover.mkTextData true 100 2 (Some 400) (Some 300) in
  let s1 := Hover.getHoverScale3D (Hover.orthographic 800 600) 800 600 textData 50 0 in
  let s2 := Hover.getHoverScale3D (Hover.orthographic 800 600) 800 600 textData 80 0 in
  Rabs (s2 - 1) <= Rabs (s1 - 1) /\
  (Hover.hoverEffectEnabled textData = true ->
   (Hover.hoverIntensity textData >= 1 -> 1 <= s2 <= s1) /\
   (Hover.hoverIntensity textData < 1 -> s1 <= s2 <= 1)).
Proof.
  apply (getHoverScale3D_monotone_in_distance (Hover.orthographic 800 600) 800 600
           (Hover.mkTextData true 100 2 (Some 400) (Some 300)) 50 0 80 0 400 300).
  - reflexivity.
  - reflexivity.
  - simpl. lra.
  - unfold Hover.screenDistance. simpl. apply sqrt_le_1_alt. lra.
Defined.

(** The circle pattern at time 0. *)
Lemma getAutoPosition_circle_at_phase_zero_example :
  AutoMotion.getAutoPosition (fun _ => 0) 800 600 (AutoMotion.mkTextData 1 5) []
    0 "circle" AutoMotion.initialState =
  (AutoMotion.mkPosition (800 / 2 + 3 / 10 * 800 * (5 * (1 / 10))) (600 / 2),
   AutoMotion.initialState).
Proof.
  apply (getAutoPosition_circle_at_phase_zero (fun _ => 0) 800 600
           (AutoMotion.mkTextData 1 5) [] 0 AutoMotion.initialState).
  - rewrite Rmult_0_l. apply cos_0.
  - rewrite Rmult_0_l. apply sin_0.
Defined.

(** The first call in the random pattern from the initial state. *)
Lemma getAutoPosition_random_first_call_example :
  let textData := AutoMotion.mkTextData 1 5 in
  let roll := fun k : nat =>
    AutoMotion.mkPosition
      (800 / 2 + ((fun _ : nat => 0) k * 2 - 1) * (800 * (4 / 10) * (5 * (1 / 10))))
      (600 / 2 + ((fun _ : nat => 0) (S k) * 2 - 1) * (600 * (35 / 100) * (5 * (1 / 10)))) in
  let r := AutoMotion.getAutoPosition (fun _ => 0) 800 600 textData [] 16
             "random" AutoMotion.initialState in
  AutoMotion.randomInitialized (snd r) = true /\
  AutoMotion.randomCurrent (snd r) = fst r /\
  (AutoMotion.intervalPassed textData 16 0 ->
   AutoMotion.randomTarget (snd r) = roll 2%nat /\
   AutoMotion.randomLastTime (snd r) = 16 /\
   AutoMotion.randomCalls (snd r) = 4%nat) /\
  (~ AutoMotion.intervalPassed textData 16 0 ->
   AutoMotion.randomTarget (snd r) = roll 0%nat /\
   AutoMotion.randomLastTime (snd r) = 0 /\
   AutoMotion.randomCalls (snd r) = 2%nat) /\
  fst r = AutoMotion.mkPosition
            (800 / 2 + (AutoMotion.x (AutoMotion.randomTarget (snd r)) - 800 / 2)
                       * (2 / 100 + 1 * (8 / 1000)))
            (600 / 2 + (AutoMotion.y (AutoMotion.randomTarget (snd r)) - 600 / 2)
                       * (2 / 100 + 1 * (8 / 1000))).
Proof.
  apply (getAutoPosition_random_first_call (fun _ => 0) 800 600
           (AutoMotion.mkTextData 1 5) [] 16 AutoMotion.initialState).
  reflexivity.
Defined.

End RealInstances.

(** * Further properties of the coordinate normaliser *)

Section NormalizerMore.

Import SVGCoordinateNormalizer.

(** The transformation of a point does not look at the other points. *)
Lemma normalize_map (points : list P2.t) (vb : ViewBox.t) (cs : Size.t)
    (options : Options) :
  exists f : P2.t -> P3.t,
    forall l, normalize l vb cs options = map f l.
Proof.
  unfold normalize.
  destruct (scales _ _ _ vb) as [sx sy].
  eexists. intros l. destruct l as [|p r]; [reflexivity|].
  cbv beta iota zeta. change (Nat.eqb (List.length (p :: r)) 0) with false.
  cbv iota. reflexivity.
Qed.

(** [normalize] works point by point: the output keeps the number and the
    order of the points, and the output for a concatenation is the
    concatenation of the outputs. *)
Theorem normalize_pointwise (l1 l2 : list P2.t) (vb : ViewBox.t) (cs : Size.t)
    (options : Options) :
  List.length (normalize l1 vb cs options) = List.length l1 /\
  normalize (l1 ++ l2) vb cs options =
  normalize l1 vb cs options ++ normalize l2 vb cs options.
Proof.
  destruct (normalize_map l1 vb cs options) as [f Hf].
  rewrite !Hf. split; [apply length_map | apply map_app].
Qed.

(** In every fit mode, for a view box of non-zero width and height, the
    centre of the view box goes to the pixel offset, that is to the canvas
    centre when the offset is 0. *)
Theorem normalize_centre_to_offset (vb : ViewBox.t) (cs : Size.t)
    (options : Options) :
  ~ ViewBox.width vb == 0 -> ~ ViewBox.height vb == 0 ->
  let centre := P2.mk (ViewBox.minX vb + ViewBox.width vb / 2)
                      (ViewBox.minY vb + ViewBox.height vb / 2) in
  let ox := orDefault 0 (offsetX options) / 100 * Size.width cs in
  let oy := orDefault 0 (offsetY options) / 100 * Size.height cs in
  exists q, normalize [centre] vb cs options = [q] /\ P3.eq q (P3.mk ox oy 0).
Proof.
  intros _ _ centre ox oy. unfold normalize.
  destruct (scales _ _ _ vb) as [sx sy]. simpl.
  eexists. split; [reflexivity|].
  unfold P3.eq, transformPoint, centre. simpl. fold ox oy.
  repeat split; ring.
Qed.

(** In stretch mode the view box is mapped onto the padded canvas: the
    point at the fractions [(a, b)] of the view box goes to the fractions
    [(a, 1 - b)] of the padded canvas rectangle around the offset. *)
Theorem normalize_stretch_fills_padded_canvas (vb : ViewBox.t) (cs : Size.t)
    (options : Options) (a b : Q) :
  fitMode options = Some "stretch"%string ->
  ~ ViewBox.width vb == 0 -> ~ ViewBox.height vb == 0 ->
  let pad := orDefault (1 # 10) (padding options) in
  let ew := Size.width cs * (1 - pad * 2) in
  let eh := Size.height cs * (1 - pad * 2) in
  let ox := orDefault 0 (offsetX options) / 100 * Size.width cs in
  let oy := orDefault 0 (offsetY options) / 100 * Size.height cs in
  let p := P2.mk (ViewBox.minX vb + a * ViewBox.width vb)
                 (ViewBox.minY vb + b * ViewBox.height vb) in
  exists q, normalize [p] vb cs options = [q] /\
    P3.eq q (P3.mk (ox - ew / 2 + a * ew) (oy + eh / 2 - b * eh) 0).
Proof.
  intros Hmode Hw Hh pad ew eh ox oy p. unfold normalize. rewrite Hmode.
  simpl. eexists. split; [reflexivity|].
  unfold P3.eq, transformPoint, p. simpl. fold pad ew eh ox oy.
  repeat split; try reflexivity; field; assumption.
Qed.

(** In every mode but stretch, for a view box of non-zero width and
    height, the drawing keeps its shape: there is one factor [s] such that
    every squared distance between two output points is [s * s] times the
    squared distance between their source points. *)
Theorem normalize_uniform_unless_stretch (vb : ViewBox.t) (cs : Size.t)
    (options : Options) :
  ~ ViewBox.width vb == 0 -> ~ ViewBox.height vb == 0 ->
  orDefault "contain"%string (fitMode options) <> "stretch"%string ->
  exists s : Q, forall (p q : P2.t) (o o' : P3.t),
    normalize [p] vb cs options = [o] ->
    normalize [q] vb cs options = [o'] ->
    (P3.x o - P3.x o') * (P3.x o - P3.x o') +
    (P3.y o - P3.y o') * (P3.y o - P3.y o') ==
    s * s * SVGPointSampler.distSq p q.
Proof.
  intros _ _ Hmode. unfold normalize.
  set (m := orDefault "contain"%string (fitMode options)) in *.
  assert (Hs : exists s, scales m
                 (Size.width cs * (1 - orDefault (1 # 10) (padding options) * 2))
                 (Size.height cs * (1 - orDefault (1 # 10) (padding options) * 2))
                 vb = (s, s)).
  { unfold scales.
    destruct (String.eqb m "contain"); [eexists; reflexivity|].
    destruct (String.eqb m "cover"); [eexists; reflexivity|].
    destruct (String.eqb m "stretch") eqn:E;
      [apply String.eqb_eq in E; contradiction | eexists; reflexivity]. }
  destruct Hs as [s Hs]. exists s. intros p q o o'. rewrite Hs. simpl.
  intros Ho Ho'. injection Ho as <-. injection Ho' as <-.
  unfold transformPoint, SVGPointSampler.distSq. simpl. ring.
Qed.

Lemma extent_pair (a b : Q) : extent [a; b] == Qabs (a - b).
Proof.
  unfold extent. cbn [fold_right].
  destruct (Qlt_le_dec a b) as [H|H].
  - rewrite (Q.max_l b a), (Q.min_r b a) by lra.
    apply (Qabs_case (a - b)); intros; lra.
  - rewrite (Q.max_r b a), (Q.min_l b a) by lra.
    apply (Qabs_case (a - b)); intros; lra.
Qed.

(** In cover mode the image of the view box covers the padded canvas: its
    two opposite corners are at least the effective width and the
    effective height apart. *)
Theorem normalize_cover_covers_padded_canvas (vb : ViewBox.t) (cs : Size.t)
    (options : Options) :
  fitMode options = Some "cover"%string ->
  0 < ViewBox.width vb -> 0 < ViewBox.height vb ->
  let pad := orDefault (1 # 10) (padding options) in
  let corners :=
    [P2.mk (ViewBox.minX vb) (ViewBox.minY vb);
     P2.mk (ViewBox.minX vb + ViewBox.width vb)
           (ViewBox.minY vb + ViewBox.height vb)] in
  let out := normalize corners vb cs options in
  Size.width cs * (1 - pad * 2) <= bboxWidth out /\
  Size.height cs * (1 - pad * 2) <= bboxHeight out.
Proof.
  intros Hmode Hw Hh pad corners out.
  unfold out, normalize, corners. rewrite Hmode. simpl.
  fold pad.
  set (ew := Size.width cs * (1 - pad * 2)).
  set (eh := Size.height cs * (1 - pad * 2)).
  set (s := Qmax (ew / ViewBox.width vb) (eh / ViewBox.height vb)).
  assert (Hsw : ew <= s * ViewBox.width vb).
  { apply Qle_trans with (ew / ViewBox.width vb * ViewBox.width vb).
    - assert (E : ew / ViewBox.width vb * ViewBox.width vb == ew) by (field; lra).
      rewrite E. apply Qle_refl.
    - apply Qmult_le_compat_r; [apply Q.le_max_l | lra]. }
  assert (Hsh : eh <= s * ViewBox.height vb).
  { apply Qle_trans with (eh / ViewBox.height vb * ViewBox.height vb).
    - assert (E : eh / ViewBox.height vb * ViewBox.height vb == eh) by (field; lra).
      rewrite E. apply Qle_refl.
    - apply Qmult_le_compat_r; [apply Q.le_max_r | lra]. }
  unfold bboxWidth, bboxHeight. cbn [map P3.x P3.y P2.x P2.y transformPoint].
  rewrite !extent_pair. split.
  - eapply Qle_trans; [exact Hsw|].
    match goal with |- _ <= Qabs ?r =>
      apply Qle_trans with (- r);
        [ assert (E : - r == s * ViewBox.width vb) by (unfold Qdiv; ring);
          rewrite E; apply Qle_refl
        | apply (Qabs_case r); intros; lra ]
    end.
  - eapply Qle_trans; [exact Hsh|].
    match goal with |- _ <= Qabs ?r =>
      assert (E : r == s * ViewBox.height vb) by (unfold Qdiv; ring)
    end.
    rewrite E. apply Qle_Qabs.
Qed.

End NormalizerMore.

(** * Further properties of the removal of overlapping points *)

Section OverlapMore.

Import SVGPointSampler.

Lemma Spread_snoc_inv (d2 : Q) (l : list P2.t) (q : P2.t) :
  Spread d2 (l ++ [q]) ->
  Spread d2 l /\ forall p, In p l -> d2 <= distSq q p.
Proof.
  intros H. split.
  - intros i j a b Hij Hi Hj. apply (H i j a b Hij).
    + rewrite nth_error_app1; [exact Hi|].
      apply nth_error_Some. congruence.
    + rewrite nth_error_app1; [exact Hj|].
      apply nth_error_Some. congruence.
  - intros p Hp. apply In_nth_error in Hp. destruct Hp as [i Hi].
    assert (Hlt : (i < List.length l)%nat) by (apply nth_error_Some; congruence).
    apply (H (List.length l) i q p); [lia | |].
    + rewrite nth_error_app2 by lia. rewrite Nat.sub_diag. reflexivity.
    + rewrite nth_error_app1 by exact Hlt. exact Hi.
Qed.

Lemma tooClose_far (d2 : Q) (result : list P2.t) (point : P2.t) :
  (forall p, In p result -> d2 <= distSq point p) ->
  tooClose d2 result point = false.
Proof.
  intros H. destruct (tooClose d2 result point) eqn:E; [|reflexivity].
  apply tooClose_true in E. destruct E as (p & Hin & Hlt).
  exfalso. apply (Qlt_not_le _ _ Hlt). apply H. exact Hin.
Qed.

(** A list that is already spread is returned as it is. *)
Lemma removeOverlapping_Spread_id (l : list P2.t) (minDistance : Q) :
  Spread (minDistance * minDistance) l -> removeOverlapping l minDistance = l.
Proof.
  induction l as [|q l IH] using rev_ind; intros Hs.
  - reflexivity.
  - apply Spread_snoc_inv in Hs. destruct Hs as [Hl Hq].
    rewrite removeOverlapping_app, (IH Hl). simpl. unfold visit.
    rewrite (tooClose_far _ _ _ Hq). reflexivity.
Qed.

(** [removeOverlapping] is idempotent: a second pass with the same
    threshold removes nothing. *)
Theorem removeOverlapping_idempotent (points : list P2.t) (minDistance : Q) :
  removeOverlapping (removeOverlapping points minDistance) minDistance
  = removeOverlapping points minDistance.
Proof.
  apply removeOverlapping_Spread_id.
  unfold removeOverlapping at 1. apply fold_visit_Spread, Spread_nil.
Qed.

Lemma fold_visit_covers (d2 : Q) (points result : list P2.t) (p : P2.t) :
  In p points \/ In p result ->
  exists q, In q (fold_left (visit d2) points result) /\
            (q = p \/ distSq p q < d2).
Proof.
  revert result. induction points as [|a points IH]; intros result Hin; simpl.
  - destruct Hin as [[]|Hin]. exists p. split; [exact Hin | left; reflexivity].
  - destruct Hin as [[Ea|Hin]|Hin].
    + subst a. destruct (tooClose d2 result p) eqn:Ht.
      * replace (visit d2 result p) with result
          by (unfold visit; rewrite Ht; reflexivity).
        apply tooClose_true in Ht. destruct Ht as (e & He & Hd).
        destruct (fold_visit_appends d2 points result) as (kept & E & _).
        exists e. split; [rewrite E; apply in_or_app; left; exact He|].
        right. exact Hd.
      * replace (visit d2 result p) with (result ++ [p])
          by (unfold visit; rewrite Ht; reflexivity).
        apply IH. right. apply in_or_app. right. left. reflexivity.
    + apply IH. left. exact Hin.
    + apply IH. right. unfold visit. destruct (tooClose d2 result a);
        [exact Hin | apply in_or_app; left; exact Hin].
Qed.

(** Nothing is dropped without a reason: every input point is retained or
    is closer than the threshold to a retained point. *)
Theorem removeOverlapping_covers (points : list P2.t) (minDistance : Q) :
  Forall (fun p =>
            exists q, In q (removeOverlapping points minDistance) /\
                      (q = p \/ distSq p q < minDistance * minDistance))
         points.
Proof.
  apply Forall_forall. intros p Hin.
  unfold removeOverlapping. apply fold_visit_covers. left. exact Hin.
Qed.

Lemma Qsquare_nonneg (a : Q) : 0 <= a * a.
Proof.
  destruct (Qlt_le_dec a 0) as [H|H].
  - assert (E : a * a == (- a) * (- a)) by ring. rewrite E.
    apply Qmult_le_0_compat; lra.
  - apply Qmult_le_0_compat; exact H.
Qed.

Lemma distSq_nonneg (p q : P2.t) : 0 <= distSq p q.
Proof.
  unfold distSq.
  pose proof (Qsquare_nonneg (P2.x p - P2.x q)).
  pose proof (Qsquare_nonneg (P2.y p - P2.y q)). lra.
Qed.

(** The first input point is always retained, so a non-empty input never
    gives an empty output; and with a threshold of 0 every point is
    retained. *)
Theorem removeOverlapping_keeps_first (p : P2.t) (points : list P2.t)
    (minDistance : Q) :
  (exists rest, removeOverlapping (p :: points) minDistance = p :: rest) /\
  removeOverlapping (p :: points) 0 = p :: points.
Proof.
  split.
  - unfold removeOverlapping. simpl.
    destruct (fold_visit_appends (minDistance * minDistance) points [p])
      as (kept & E & _).
    exists kept. exact E.
  - apply removeOverlapping_Spread_id.
    intros i j a b _ _ _. eapply Qle_trans; [|apply distSq_nonneg].
    vm_compute. discriminate.
Qed.

End OverlapMore.

(** * Properties of outline and fill sampling *)

Section PathSamplingFacts.

Import SVGPathSampling.
Context `{PathGeometry}.

Lemma loopLe_stepsLe {A : Type} (bound step : Q) (body : Q -> list A) :
  forall fuel v,
    loopLe fuel bound step body v = flat_map body (stepsLe fuel bound step v).
Proof.
  induction fuel as [|fuel IH]; intros v; simpl; [reflexivity|].
  destruct (Qlt_le_dec bound v); [reflexivity|]. simpl. rewrite IH. reflexivity.
Qed.

(** The loop variable stays between its first value and the bound, on the
    grid of the step. *)
Lemma stepsLe_range (bound step : Q) :
  0 < step ->
  forall fuel v,
    Forall (fun e => v <= e <= bound /\
                     exists k : nat, e == v + inject_Z (Z.of_nat k) * step)
           (stepsLe fuel bound step v).
Proof.
  intros Hs. induction fuel as [|fuel IH]; intros v; simpl; [constructor|].
  destruct (Qlt_le_dec bound v) as [_|Hle]; [constructor|].
  constructor.
  - split; [lra|]. exists 0%nat. simpl. change (inject_Z 0) with 0. ring.
  - eapply Forall_impl; [|apply (IH (v + step))]. simpl.
    intros e [[H1 H2] [k Hk]]. split; [lra|].
    exists (S k). rewrite inject_nat_succ, Hk. ring.
Qed.

Lemma enoughLe_zero (bound step v : Q) : enoughLe bound step 0 v -> bound < v.
Proof.
  unfold enoughLe. simpl. change (inject_Z 0) with 0. intros Hz. lra.
Qed.

Lemma enoughLe_succ (bound step : Q) (fuel : nat) (v : Q) :
  enoughLe bound step (S fuel) v -> enoughLe bound step fuel (v + step).
Proof.
  unfold enoughLe. intros Hz. rewrite inject_nat_succ in Hz.
  assert (E : v + step + inject_Z (Z.of_nat fuel) * step ==
              v + (inject_Z (Z.of_nat fuel) + 1) * step) by ring.
  rewrite E. exact Hz.
Qed.

Lemma turnsLe_enough (v0 bound step : Q) :
  0 < step -> enoughLe bound step (turnsLe v0 bound step) v0.
Proof.
  intros Hs. unfold enoughLe, turnsLe.
  set (c := Qfloor ((bound - v0) / step)).
  assert (Hc : (bound - v0) / step < inject_Z (c + 1)) by apply Qlt_floor.
  assert (Hn : inject_Z (c + 1) <= inject_Z (Z.of_nat (Z.to_nat (c + 1)))).
  { rewrite <- Zle_Qle. lia. }
  assert (Hb : bound - v0 == (bound - v0) / step * step) by (field; lra).
  assert (Hm : (bound - v0) / step * step <
               inject_Z (Z.of_nat (Z.to_nat (c + 1))) * step).
  { apply Qmult_lt_compat_r; [exact Hs|]. eapply Qlt_le_trans; eassumption. }
  lra.
Qed.

(** With enough fuel the loop variable has run up to the bound: the list
    of its values does not depend on the fuel. *)
Lemma stepsLe_stable (bound step : Q) :
  forall fuel fuel' v,
    enoughLe bound step fuel v -> enoughLe bound step fuel' v ->
    stepsLe fuel bound step v = stepsLe fuel' bound step v.
Proof.
  induction fuel as [|fuel IH]; intros fuel' v Hf Hf'.
  - apply enoughLe_zero in Hf. destruct fuel' as [|fuel']; [reflexivity|]. simpl.
    destruct (Qlt_le_dec bound v) as [_|Hle]; [reflexivity | exfalso; lra].
  - simpl. destruct (Qlt_le_dec bound v) as [Hlt|Hle].
    + destruct fuel' as [|fuel']; [reflexivity|]. simpl.
      destruct (Qlt_le_dec bound v) as [_|Hle]; [reflexivity | exfalso; lra].
    + destruct fuel' as [|fuel'].
      * apply enoughLe_zero in Hf'. exfalso. lra.
      * simpl. destruct (Qlt_le_dec bound v) as [Hlt|_]; [exfalso; lra|].
        f_equal. apply IH; apply enoughLe_succ; assumption.
Qed.

Lemma last_cons_default {A : Type} (a : A) (l : list A) (d d' : A) :
  last (a :: l) d = last (a :: l) d'.
Proof.
  revert a. induction l as [|b l IH]; intros a; [reflexivity|].
  change (last (b :: l) d = last (b :: l) d'). apply IH.
Qed.

(** With enough fuel and a first value within the bound, the last value
    of the loop variable is less than one step below the bound. *)
Lemma stepsLe_last (bound step : Q) :
  0 < step ->
  forall fuel v, enoughLe bound step fuel v -> v <= bound ->
    exists rest, stepsLe fuel bound step v = v :: rest /\
                 bound < last (v :: rest) v + step.
Proof.
  intros Hs. induction fuel as [|fuel IH]; intros v Hen Hv.
  - apply enoughLe_zero in Hen. exfalso. lra.
  - simpl. destruct (Qlt_le_dec bound v) as [Hlt|_]; [exfalso; lra|].
    destruct (Qlt_le_dec bound (v + step)) as [Hout|Hin].
    + exists []. split; [|simpl; exact Hout].
      f_equal. destruct fuel as [|fuel]; [reflexivity|]. simpl.
      destruct (Qlt_le_dec bound (v + step)); [reflexivity | exfalso; lra].
    + destruct (IH (v + step) (enoughLe_succ _ _ _ _ Hen) Hin) as (rest & E & Hl).
      exists ((v + step) :: rest). split; [rewrite E; reflexivity|].
      change (bound < last ((v + step) :: rest) v + step).
      rewrite (last_cons_default (v + step) rest v (v + step)).
      exact Hl.
Qed.

Lemma flat_map_singleton {A B : Type} (f : A -> B) (l : list A) :
  flat_map (fun a => [f a]) l = map f l.
Proof. induction l as [|a l IH]; simpl; [reflexivity | rewrite IH; reflexivity]. Qed.

Lemma last_In {A : Type} (a : A) (l : list A) (d : A) : In (last (a :: l) d) (a :: l).
Proof.
  revert a. induction l as [|b l IH]; intros a; [left; reflexivity|].
  right. change (In (last (b :: l) d) (b :: l)). apply IH.
Qed.

(** Two multiples of the step less than one step apart are equal. *)
Lemma grid_last (k : nat) (m : Z) (step total e : Q) :
  0 < step ->
  e == inject_Z (Z.of_nat k) * step -> total == step * inject_Z m ->
  e <= total -> total < e + step -> e == total.
Proof.
  intros Hs He Ht Hle Hlt.
  assert (H1 : inject_Z (Z.of_nat k) <= inject_Z m).
  { apply (Qmult_le_r _ _ step Hs). rewrite <- He.
    assert (E : inject_Z m * step == total) by (rewrite Ht; ring).
    rewrite E. exact Hle. }
  assert (H2 : inject_Z m < inject_Z (Z.of_nat k + 1)).
  { rewrite inject_Z_plus. apply (Qmult_lt_r _ _ step Hs).
    assert (E1 : inject_Z m * step == total) by (rewrite Ht; ring).
    assert (E2 : (inject_Z (Z.of_nat k) + inject_Z 1) * step == e + step)
      by (rewrite He; change (inject_Z 1) with 1; ring).
    rewrite E1, E2. exact Hlt. }
  rewrite <- Zle_Qle in H1. rewrite <- Zlt_Qlt in H2.
  assert (Ekm : Z.of_nat k = m) by lia.
  rewrite He, Ht, Ekm. ring.
Qed.

(** For a non-negative dividend and a positive divisor the remainder is 0
    exactly for the multiples of the divisor. *)
Lemma jsRem_zero_multiple (a b : Q) :
  0 <= a -> 0 < b -> jsRem a b == 0 -> a == b * inject_Z (Qfloor (a / b)).
Proof.
  intros Ha Hb Hr. unfold jsRem in Hr.
  assert (Hq : 0 <= a / b) by (apply Qle_shift_div_l; [exact Hb | lra]).
  assert (Et : Qtrunc (a / b) = Qfloor (a / b)).
  { unfold Qtrunc, Qfloor. destruct (a / b) as [n d]. simpl.
    apply Z.quot_div_nonneg; [|reflexivity].
    unfold Qle in Hq. simpl in Hq. lia. }
  rewrite Et in Hr. lra.
Qed.

Lemma point_copy (p : P2.t) : P2.mk (P2.x p) (P2.y p) = p.
Proof. destruct p; reflexivity. Qed.

(** The outline samples of a path of non-negative length, for a positive
    spacing: they are the points of the path at a list of lengths that
    starts with 0, ends at the total length and stays between the two. *)
Theorem samplePath_from_start_to_end (pathD transform : string) (spacing : Q) :
  0 < spacing -> 0 <= getTotalLength pathD transform ->
  exists dists : list Q,
    samplePath pathD transform spacing
      = map (getPointAtLength pathD transform) dists /\
    hd_error dists = Some 0 /\
    last dists 0 == getTotalLength pathD transform /\
    Forall (fun dist => 0 <= dist <= getTotalLength pathD transform) dists.
Proof.
  intros Hs Hl. unfold samplePath.
  set (total := getTotalLength pathD transform) in *.
  rewrite loopLe_stepsLe.
  assert (Emap : forall l,
            flat_map (fun dist =>
              [P2.mk (P2.x (getPointAtLength pathD transform dist))
                     (P2.y (getPointAtLength pathD transform dist))]) l
            = map (getPointAtLength pathD transform) l).
  { intros l. rewrite (flat_map_singleton
      (fun dist => P2.mk (P2.x (getPointAtLength pathD transform dist))
                         (P2.y (getPointAtLength pathD transform dist)))).
    apply map_ext. intros dist. apply point_copy. }
  cbv zeta. rewrite Emap, point_copy.
  destruct (stepsLe_last total spacing Hs _ 0 (turnsLe_enough 0 total spacing Hs) Hl)
    as (rest & E & Hlast).
  pose proof (stepsLe_range total spacing Hs (turnsLe 0 total spacing) 0) as Hrange.
  rewrite E in *.
  assert (Hr : Forall (fun dist => 0 <= dist <= total) (0 :: rest)).
  { eapply Forall_impl; [|exact Hrange]. simpl. intros e [He _]. exact He. }
  destruct (Qeq_bool (jsRem total spacing) 0) eqn:Erem; simpl negb; cbv iota.
  - exists (0 :: rest). split; [reflexivity|]. split; [reflexivity|].
    split; [|exact Hr].
    apply Qeq_bool_iff in Erem.
    rewrite Forall_forall in Hrange.
    destruct (Hrange _ (last_In 0 rest 0)) as [[_ Hle] [k Hk]].
    apply (grid_last k (Qfloor (total / spacing)) spacing total _ Hs).
    + rewrite Hk. ring.
    + apply jsRem_zero_multiple; assumption.
    + exact Hle.
    + exact Hlast.
  - exists ((0 :: rest) ++ [total]). split; [rewrite map_app; reflexivity|].
    split; [reflexivity|]. split.
    + rewrite last_last. reflexivity.
    + apply Forall_app. split; [exact Hr|]. constructor; [lra | constructor].
Qed.

(** What one row of the fill grid returns. *)
Lemma fillRow_sound (pathD transform : string) (bbox : BBox) (spacing : Q)
    (rowIndex : nat) (y : Q) (p : P2.t) :
  0 < spacing ->
  In p (fillRow pathD transform bbox spacing rowIndex y) ->
  isPointInFill pathD transform (P2.x p) (P2.y p) = true /\
  P2.y p = y /\
  bx bbox <= P2.x p <= bx bbox + bwidth bbox /\
  exists col : nat,
    P2.x p == bx bbox + inject_Z (Z.of_nat (rowIndex mod 2)) * (spacing / 2)
              + inject_Z (Z.of_nat col) * spacing.
Proof.
  intros Hs Hin. unfold fillRow in Hin. rewrite loopLe_stepsLe in Hin.
  apply in_flat_map in Hin. destruct Hin as (x & Hx & Hp).
  destruct (isPointInFill pathD transform x y) eqn:Hfill; [|destruct Hp].
  destruct Hp as [Hp|[]]. subst p. simpl.
  pose proof (stepsLe_range (bx bbox + bwidth bbox) spacing Hs
                (turnsLe (bx bbox + inject_Z (Z.of_nat (rowIndex mod 2)) * (spacing / 2))
                         (bx bbox + bwidth bbox) spacing)
                (bx bbox + inject_Z (Z.of_nat (rowIndex mod 2)) * (spacing / 2)))
    as Hrange.
  rewrite Forall_forall in Hrange. destruct (Hrange x Hx) as [[Hlo Hhi] [col Hc]].
  split; [exact Hfill|]. split; [reflexivity|]. split.
  - split; [|exact Hhi].
    pose proof (inject_nat_nonneg (rowIndex mod 2)) as Hn.
    assert (0 <= inject_Z (Z.of_nat (rowIndex mod 2)) * (spacing / 2)).
    { apply Qmult_le_0_compat; [exact Hn|]. apply Qle_shift_div_l; lra. }
    lra.
  - exists col. exact Hc.
Qed.

Lemma fillRows_sound (pathD transform : string) (bbox : BBox) (spacing : Q)
    (p : P2.t) :
  0 < spacing ->
  forall fuel rowIndex y,
    y == by_ bbox + inject_Z (Z.of_nat rowIndex) * spacing ->
    In p (fillRows fuel pathD transform bbox spacing rowIndex y) ->
    isPointInFill pathD transform (P2.x p) (P2.y p) = true /\
    (bx bbox <= P2.x p <= bx bbox + bwidth bbox) /\
    (by_ bbox <= P2.y p <= by_ bbox + bheight bbox) /\
    exists row col : nat,
      P2.y p == by_ bbox + inject_Z (Z.of_nat row) * spacing /\
      P2.x p == bx bbox + inject_Z (Z.of_nat (row mod 2)) * (spacing / 2)
                + inject_Z (Z.of_nat col) * spacing.
Proof.
  intros Hs. induction fuel as [|fuel IH]; intros rowIndex y Hy Hin; simpl in Hin.
  - destruct Hin.
  - destruct (Qlt_le_dec (by_ bbox + bheight bbox) y) as [_|Hle]; [destruct Hin|].
    apply in_app_or in Hin. destruct Hin as [Hin|Hin].
    + destruct (fillRow_sound _ _ _ _ _ _ _ Hs Hin) as (Hf & Ey & Hx & col & Hc).
      split; [exact Hf|]. split; [exact Hx|]. rewrite Ey. split.
      * split; [|exact Hle].
        pose proof (inject_nat_nonneg rowIndex) as Hn.
        assert (0 <= inject_Z (Z.of_nat rowIndex) * spacing)
          by (apply Qmult_le_0_compat; lra).
        lra.
      * exists rowIndex, col. split; [exact Hy | exact Hc].
    + apply (IH (S rowIndex) (y + spacing)); [|exact Hin].
      rewrite inject_nat_succ, Hy. ring.
Qed.

(** The fill samples, for a positive spacing: every one is inside the
    fill of the path, inside its bounding box, and on the honeycomb grid:
    row [r] is at [bbox.y + r * spacing], and its points are a multiple
    of the spacing from [bbox.x] in the even rows and from
    [bbox.x + spacing / 2] in the odd rows. *)
Theorem sampleFill_in_fill_on_honeycomb (pathD transform : string)
    (spacing : Q) (p : P2.t) :
  0 < spacing ->
  In p (sampleFill pathD transform spacing) ->
  let bbox := getBBox pathD transform in
  isPointInFill pathD transform (P2.x p) (P2.y p) = true /\
  (bx bbox <= P2.x p <= bx bbox + bwidth bbox) /\
  (by_ bbox <= P2.y p <= by_ bbox + bheight bbox) /\
  exists row col : nat,
    P2.y p == by_ bbox + inject_Z (Z.of_nat row) * spacing /\
    P2.x p == bx bbox + inject_Z (Z.of_nat (row mod 2)) * (spacing / 2)
              + inject_Z (Z.of_nat col) * spacing.
Proof.
  intros Hs Hin bbox. unfold sampleFill in Hin. fold bbox in Hin.
  apply (fillRows_sound pathD transform bbox spacing p Hs
           (turnsLe (by_ bbox) (by_ bbox + bheight bbox) spacing) 0%nat (by_ bbox));
    [|exact Hin].
  simpl. change (inject_Z 0) with 0. ring.
Qed.

(** With a positive spacing the row loop of [sampleFill] ends within
    [turnsLe] turns: more fuel gives the same points. *)
Lemma fillRows_stable (pathD transform : string) (bbox : BBox) (spacing : Q) :
  forall fuel fuel' rowIndex y,
    enoughLe (by_ bbox + bheight bbox) spacing fuel y ->
    enoughLe (by_ bbox + bheight bbox) spacing fuel' y ->
    fillRows fuel pathD transform bbox spacing rowIndex y =
    fillRows fuel' pathD transform bbox spacing rowIndex y.
Proof.
  induction fuel as [|fuel IH]; intros fuel' rowIndex y Hf Hf'.
  - apply enoughLe_zero in Hf. destruct fuel' as [|fuel']; [reflexivity|]. simpl.
    destruct (Qlt_le_dec _ y) as [_|Hle]; [reflexivity | exfalso; lra].
  - simpl. destruct (Qlt_le_dec _ y) as [Hlt|Hle].
    + destruct fuel' as [|fuel']; [reflexivity|]. simpl.
      destruct (Qlt_le_dec _ y) as [_|Hle]; [reflexivity | exfalso; lra].
    + destruct fuel' as [|fuel'].
      * apply enoughLe_zero in Hf'. exfalso. lra.
      * simpl. destruct (Qlt_le_dec _ y) as [Hlt|_]; [exfalso; lra|].
        f_equal. apply IH; apply enoughLe_succ; assumption.
Qed.

Lemma sampleFill_total (pathD transform : string) (spacing : Q) (fuel : nat) :
  0 < spacing ->
  let bbox := getBBox pathD transform in
  (turnsLe (by_ bbox) (by_ bbox + bheight bbox) spacing <= fuel)%nat ->
  fillRows fuel pathD transform bbox spacing 0 (by_ bbox)
  = sampleFill pathD transform spacing.
Proof.
  intros Hs bbox Hfuel. unfold sampleFill. fold bbox.
  apply fillRows_stable; [|apply turnsLe_enough; exact Hs].
  pose proof (turnsLe_enough (by_ bbox) (by_ bbox + bheight bbox) spacing Hs) as Hen.
  unfold enoughLe in *.
  assert (inject_Z (Z.of_nat (turnsLe (by_ bbox) (by_ bbox + bheight bbox) spacing))
          <= inject_Z (Z.of_nat fuel)) by (rewrite <- Zle_Qle; lia).
  assert (inject_Z (Z.of_nat (turnsLe (by_ bbox) (by_ bbox + bheight bbox) spacing))
          * spacing <= inject_Z (Z.of_nat fuel) * spacing)
    by (apply Qmult_le_compat_r; lra).
  lra.
Qed.

(** [sampleAllPaths] never reads the [fill] and [stroke] flags of a path:
    two lists of paths with the same path data and transforms give the
    same points. *)
Theorem sampleAllPaths_ignores_fill_and_stroke
    (paths paths' : list SVGShapeParser.PathDescriptor) (spacing : Q)
    (options : SampleOptions) :
  map (fun i => (SVGShapeParser.d i, SVGShapeParser.transform i)) paths =
  map (fun i => (SVGShapeParser.d i, SVGShapeParser.transform i)) paths' ->
  sampleAllPaths paths spacing options = sampleAllPaths paths' spacing options.
Proof.
  intros E. unfold sampleAllPaths. f_equal.
  revert paths' E. induction paths as [|a paths IH]; intros [|b paths'] E;
    try discriminate E; [reflexivity|].
  simpl in E. injection E as Ed Et E. simpl.
  rewrite (IH paths' E). f_equal.
  unfold pathPoints. rewrite Ed, Et. reflexivity.
Qed.

(** For a positive spacing and with merging (the default) the points that
    [sampleAllPaths] returns are some of the points it returns without
    merging, in the same order, and any two of them at different
    positions are at squared distance at least [(spacing / 2)²]. *)
Theorem sampleAllPaths_merged_spread
    (paths : list SVGShapeParser.PathDescriptor) (spacing : Q)
    (outline fill : option bool) :
  0 < spacing ->
  let merged := sampleAllPaths paths spacing (mkSampleOptions outline fill None) in
  let raw := sampleAllPaths paths spacing (mkSampleOptions outline fill (Some false)) in
  SVGPointSampler.Subseq merged raw /\
  SVGPointSampler.Spread ((spacing / 2) * (spacing / 2)) merged.
Proof.
  intros _ merged raw. unfold merged, raw, sampleAllPaths. simpl.
  set (allPoints := flat_map _ paths).
  unfold SVGPointSampler.mergeStep. simpl.
  destruct (Nat.eqb (List.length allPoints) 0) eqn:El; simpl.
  - apply Nat.eqb_eq in El. apply length_zero_iff_nil in El. rewrite El.
    split; [constructor | apply Spread_nil].
  - split.
    + destruct (fold_visit_appends ((spacing / 2) * (spacing / 2)) allPoints [])
        as (kept & E & Hk).
      unfold SVGPointSampler.removeOverlapping. rewrite E. exact Hk.
    + unfold SVGPointSampler.removeOverlapping.
      apply fold_visit_Spread, Spread_nil.
Qed.

End PathSamplingFacts.

(** * Further properties of the raster sampler *)

Section RasterMore.

Import Raster.



Section AnyCanvas.
Context {numbers : NumberSum} {ctx : Type} `{Canvas2D ctx}.



End AnyCanvas.

(** What [drawLines] asks of the recording canvas. *)
Lemma drawLines_log (font : Font) (centerX startY lineHeightPixels : Q)
    (lines : list string) :
  forall (c : list TextCall) (index : nat),
    exists calls,
      drawLines c font centerX startY lineHeightPixels index lines = c ++ calls /\
      map callLine calls = lines /\
      forall i call, nth_error calls i = Some call ->
        callX call = centerX /\
        callY call = startY + inject_Z (Z.of_nat (index + i)) * lineHeightPixels.
Proof.
  induction lines as [|line lines IH]; intros c index; simpl.
  - exists []. split; [symmetry; apply app_nil_r|]. split; [reflexivity|].
    intros i call Hi. destruct i; discriminate Hi.
  - destruct (IH (c ++ [mkTextCall line centerX
                     (startY + inject_Z (Z.of_nat index) * lineHeightPixels)])
                 (S index)) as (calls & E & Hl & Hc).
    exists (mkTextCall line centerX
              (startY + inject_Z (Z.of_nat index) * lineHeightPixels) :: calls).
    split; [rewrite E, <- app_assoc; reflexivity|].
    split; [simpl; rewrite Hl; reflexivity|].
    intros i call Hi. destruct i as [|i]; simpl in Hi.
    + injection Hi as <-. simpl. rewrite Nat.add_0_r. split; reflexivity.
    + destruct (Hc i call Hi) as [Hx Hy]. split; [exact Hx|].
      rewrite Hy. replace (index + S i)%nat with (S index + i)%nat by lia.
      reflexivity.
Qed.

(** [getTextPoints] draws the lines of the text, one [fillText] per line
    of [text.split('\n')] and in that order, all at
    [x = width / 2 + textOffsetX % of the width]; the block is centred
    vertically: line [i] of [n] is drawn at
    [height / 2 + textOffsetY % of the height + (i - (n - 1) / 2) x
    fontSize x lineHeight]. *)
Theorem renderText_lines_centred (textData : TextData)
    (canvasWidth canvasHeight : Z) (text : string) (fontSize : Q) :
  let calls : list TextCall :=
    renderText textData canvasWidth canvasHeight text fontSize in
  let n := List.length (splitLines text) in
  map callLine calls = splitLines text /\
  forall i call, nth_error calls i = Some call ->
    callX call == inject_Z canvasWidth / 2
                  + textOffsetX textData / 100 * inject_Z canvasWidth /\
    callY call == inject_Z canvasHeight / 2
                  + textOffsetY textData / 100 * inject_Z canvasHeight
                  + (inject_Z (Z.of_nat i) - (inject_Z (Z.of_nat n) - 1) / 2)
                    * (fontSize * lineHeight textData).
Proof.
  intros calls n. unfold calls, renderText.
  match goal with |- context [drawLines ?c ?f ?cx ?sy ?lh 0 ?ls] =>
    destruct (drawLines_log f cx sy lh ls c 0%nat) as (cs & E & Hl & Hc)
  end.
  rewrite E. simpl app. split; [exact Hl|].
  intros i call Hi. destruct (Hc i call Hi) as [Hx Hy].
  rewrite Hx, Hy. fold n. simpl Nat.add.
  split; [reflexivity|]. field.
Qed.

End RasterMore.

(** * Further properties of the hover field *)

Section HoverMore.

Import Hover.
Local Open Scope R_scope.

Lemma screenDistance_nonneg (camera : Camera) (canvasWidth canvasHeight : R)
    (pointX pointY mx my : R) :
  0 <= screenDistance camera canvasWidth canvasHeight pointX pointY mx my.
Proof. unfold screenDistance. apply sqrt_pos. Qed.

Lemma scaleAt_lower (textData : TextData) (distance : R) :
  1 / 10 <= scaleAt textData distance.
Proof.
  unfold scaleAt. destruct (Rge_dec distance (hoverRadius textData)); [lra|].
  apply Rmax_l.
Qed.

Lemma scaleAt_at_zero_grow (textData : TextData) :
  0 < hoverRadius textData -> hoverIntensity textData >= 1 ->
  scaleAt textData 0 = hoverIntensity textData.
Proof.
  intros Hr Hi. rewrite scaleAt_grow by assumption. field. lra.
Qed.

Lemma scaleAt_upper (textData : TextData) (distance : R) :
  0 < hoverRadius textData -> 0 <= distance ->
  scaleAt textData distance <= Rmax 1 (hoverIntensity textData).
Proof.
  intros Hr Hd. destruct (Rge_dec (hoverIntensity textData) 1) as [Hi|Hi].
  - destruct (scaleAt_grow_antitone textData 0 distance Hr Hi Hd) as [_ Hle].
    rewrite (scaleAt_at_zero_grow textData Hr Hi) in Hle.
    eapply Rle_trans; [exact Hle | apply Rmax_r].
  - assert (Hi' : hoverIntensity textData < 1) by lra.
    destruct (scaleAt_shrink_monotone textData distance distance Hr Hi' (Rle_refl _))
      as [_ Hle].
    eapply Rle_trans; [exact Hle | apply Rmax_l].
Qed.

(** The hover scale is never below 0.1, and for a positive radius it is
    never above the greater of 1 and the intensity. *)
Theorem getHoverScale3D_range (camera : Camera) (canvasWidth canvasHeight : R)
    (textData : TextData) (pointX pointY : R) :
  let s := getHoverScale3D camera canvasWidth canvasHeight textData pointX pointY in
  1 / 10 <= s /\
  (0 < hoverRadius textData -> s <= Rmax 1 (hoverIntensity textData)).
Proof.
  intros s. unfold s, getHoverScale3D.
  assert (H1 : 1 <= Rmax 1 (hoverIntensity textData)) by apply Rmax_l.
  destruct (negb (hoverEffectEnabled textData)); [split; intros; lra|].
  destruct (mouseX textData) as [mx|]; [|split; intros; lra].
  destruct (mouseY textData) as [my|]; [|split; intros; lra].
  split; [apply scaleAt_lower|].
  intros Hr. apply scaleAt_upper; [exact Hr | apply screenDistance_nonneg].
Qed.

(** At the cursor the effect is full: for a positive radius, a point whose
    screen distance to the cursor is 0 has the intensity as its scale when
    the intensity is at least 1, and [max 0.1 (1 / (|intensity| + 1))]
    when it is below 1. *)
Theorem getHoverScale3D_at_cursor (camera : Camera) (canvasWidth canvasHeight : R)
    (textData : TextData) (pointX pointY mx my : R) :
  hoverEffectEnabled textData = true ->
  mouseX textData = Some mx -> mouseY textData = Some my ->
  0 < hoverRadius textData ->
  screenDistance camera canvasWidth canvasHeight pointX pointY mx my = 0 ->
  let s := getHoverScale3D camera canvasWidth canvasHeight textData pointX pointY in
  (hoverIntensity textData >= 1 -> s = hoverIntensity textData) /\
  (hoverIntensity textData < 1 ->
   s = Rmax (1 / 10) (1 / (Rabs (hoverIntensity textData) + 1))).
Proof.
  intros He Hx Hy Hr Hd s. unfold s, getHoverScale3D. rewrite He, Hx, Hy, Hd.
  simpl. split; intros Hi.
  - apply scaleAt_at_zero_grow; assumption.
  - rewrite scaleAt_shrink by assumption.
    pose proof (minScale_bounds (hoverIntensity textData)) as [Hm _].
    set (m := Rmax (1 / 10) (1 / (Rabs (hoverIntensity textData) + 1))) in *.
    rewrite Rmax_right; [field; lra|].
    replace (1 - (1 - m) * (1 - 0 / hoverRadius textData)) with m by (field; lra).
    exact Hm.
Qed.

(** With the camera that [init] builds, the hover distance is measured in
    canvas pixels from the pixel of the point: the scene point [(x, y)]
    is at the screen position [(x + width / 2, height / 2 - y)]. *)
Theorem screenDistance_orthographic_pixels (canvasWidth canvasHeight : R)
    (pointX pointY mx my : R) :
  canvasWidth <> 0 -> canvasHeight <> 0 ->
  screenDistance (orthographic canvasWidth canvasHeight) canvasWidth canvasHeight
                 pointX pointY mx my
  = sqrt ((pointX + canvasWidth / 2 - mx) * (pointX + canvasWidth / 2 - mx) +
          (canvasHeight / 2 - pointY - my) * (canvasHeight / 2 - pointY - my)).
Proof.
  intros Hw Hh. unfold screenDistance, orthographic. simpl.
  f_equal. field. split; assumption.
Qed.

End HoverMore.

(** * Properties of the instance transforms *)

Section InstanceFacts.

Import Instances.
Local Open Scope R_scope.

(** The rotation phase of an instance is an angle in [[0, 2 pi)]. *)
Lemma phase_range (i : nat) : 0 <= phase i < 2 * PI.
Proof.
  unfold phase, jsRem.
  pose proof PI_RGT_0 as Hpi.
  set (a := INR i * (1 / 10)).
  assert (Ha : 0 <= a) by (unfold a; pose proof (pos_INR i); lra).
  assert (Hq : 0 <= a / (PI * 2)).
  { unfold Rdiv. apply Rmult_le_pos; [exact Ha|].
    left. apply Rinv_0_lt_compat. lra. }
  unfold Rtrunc. destruct (Rle_dec 0 (a / (PI * 2))) as [_|Hn]; [|contradiction].
  destruct (base_Int_part (a / (PI * 2))) as [H1 H2].
  set (k := IZR (Int_part (a / (PI * 2)))) in *.
  assert (Ea : a = PI * 2 * (a / (PI * 2))) by (field; lra).
  assert (0 <= PI * 2 * (a / (PI * 2) - k)) by (apply Rmult_le_pos; lra).
  assert (PI * 2 * (a / (PI * 2) - k) < PI * 2 * 1)
    by (apply Rmult_lt_compat_l; lra).
  split; lra.
Qed.

Lemma transformsFrom_nth (camera : Hover.Camera) (canvasWidth canvasHeight : R)
    (textData : Hover.TextData) (shapeSize rotationAngle : R) :
  forall (particles : list Particle) (start i : nat) (p : Particle),
    nth_error particles i = Some p ->
    nth_error (transformsFrom camera canvasWidth canvasHeight textData shapeSize
                              rotationAngle start particles) i
    = Some (instanceTransform camera canvasWidth canvasHeight textData shapeSize
                              rotationAngle (start + i) p).
Proof.
  induction particles as [|q particles IH]; intros start i p Hi.
  - destruct i; discriminate Hi.
  - destruct i as [|i]; simpl in *.
    + injection Hi as <-. rewrite Nat.add_0_r. reflexivity.
    + rewrite (IH (S start) i p Hi). f_equal. f_equal. lia.
Qed.

Lemma transformsFrom_length (camera : Hover.Camera) (canvasWidth canvasHeight : R)
    (textData : Hover.TextData) (shapeSize rotationAngle : R) :
  forall (particles : list Particle) (start : nat),
    List.length (transformsFrom camera canvasWidth canvasHeight textData shapeSize
                                rotationAngle start particles)
    = List.length particles.
Proof.
  induction particles as [|q particles IH]; intros start; simpl;
    [reflexivity | rewrite IH; reflexivity].
Qed.

(** With a mesh in place, [updateInstancedMesh] writes one transform per
    particle, at the index of the particle: the position is the position
    of the particle, the rotation is [(angle + phase, angle + phase, 0)]
    with a phase in [[0, 2 pi)] that depends on the index only, and the
    scale is [shapeSize x baseScale x getHoverScale3D(x, y)]. *)
Theorem updateInstancedMesh_per_particle (camera : Hover.Camera)
    (canvasWidth canvasHeight : R) (textData : Hover.TextData)
    (shapeSize rotationAngle : R) (particlePositions : list Particle)
    (i : nat) (p : Particle) :
  nth_error particlePositions i = Some p ->
  exists transforms t,
    updateInstancedMesh true camera canvasWidth canvasHeight textData shapeSize
                        particlePositions rotationAngle = Some transforms /\
    List.length transforms = List.length particlePositions /\
    nth_error transforms i = Some t /\
    position t = (x p, y p, z p) /\
    rotation t = (rotationAngle + phase i, rotationAngle + phase i, 0) /\
    0 <= phase i < 2 * PI /\
    scale t = shapeSize * (baseScale p *
                Hover.getHoverScale3D camera canvasWidth canvasHeight textData
                                      (x p) (y p)).
Proof.
  intros Hi. unfold updateInstancedMesh.
  destruct particlePositions as [|q rest]; [destruct i; discriminate Hi|].
  simpl negb. simpl orb. cbv iota.
  eexists. eexists. split; [reflexivity|].
  split; [apply transformsFrom_length|].
  split; [apply transformsFrom_nth; exact Hi|].
  simpl Nat.add. unfold instanceTransform. simpl.
  split; [reflexivity|]. split; [reflexivity|]. split; [apply phase_range|].
  unfold Hover.getHoverScale3D.
  destruct (Hover.hoverEffectEnabled textData); simpl.
  - destruct (Hover.mouseX textData); [reflexivity | ring].
  - ring.
Qed.

End InstanceFacts.

(** * Properties of the frame loops *)

Section FrameLoopFacts.

Import FrameLoop.

Lemma without_self (id : nat) : without id [id] = [].
Proof. unfold without. simpl. rewrite Nat.eqb_refl. reflexivity. Qed.

Lemma without_nil (id : nat) : without id [] = [].
Proof. reflexivity. Qed.

Lemma without_other (id other : nat) : other <> id -> without id [other] = [other].
Proof.
  intros Hne. unfold without. simpl.
  apply Nat.eqb_neq in Hne. rewrite Hne. reflexivity.
Qed.

(** The hypotheses of [consistent], taken apart for given flags. *)
Ltac open_consistent :=
  match goal with
  | |- consistent ?s -> _ =>
      destruct s as [a h fa fh pa ph n]; unfold consistent, loopPending;
      cbn [isAnimating hoverEffectEnabled animationFrameId hoverAnimationFrameId
           pendingAnimate pendingHover nextId];
      intros (Ha & Hh & Hn); destruct a, h; cbn [andb negb] in Ha, Hh;
      repeat match goal with
      | H : exists _, _ |- _ => destruct H as (? & ? & ? & ?)
      | H : _ /\ _ |- _ => destruct H
      end; subst
  end.

Ltac close_consistent :=
  cbn; rewrite ?without_self, ?Nat.eqb_refl; cbn;
  repeat split; try lia; try reflexivity;
  try match goal with
      | |- exists id, Some (S ?m) = Some (S id) /\ _ =>
          exists m; repeat split; lia
      | |- exists id, Some ?m = Some (S id) /\ _ =>
          is_var m; destruct m as [|m]; [lia|]; exists m; repeat split; lia
      end.

Lemma startAnimation_consistent (s : State) :
  consistent s -> consistent (startAnimation s).
Proof. open_consistent; unfold consistent, loopPending; close_consistent. Qed.

Lemma stopAnimation_consistent (s : State) :
  consistent s -> consistent (stopAnimation s).
Proof. open_consistent; unfold consistent, loopPending; close_consistent. Qed.

Lemma setHoverEnabled_consistent (enabled : bool) (s : State) :
  consistent s -> consistent (setHoverEnabled enabled s).
Proof.
  destruct enabled; open_consistent; unfold consistent, loopPending;
    close_consistent.
Qed.

Lemma frameFires_consistent (id : nat) (s : State) :
  consistent s -> consistent (frameFires id s).
Proof.
  open_consistent; unfold consistent, loopPending, frameFires;
    cbn [pendingAnimate pendingHover existsb orb];
    try match goal with
    | |- context [Nat.eqb id (S ?i)] =>
        destruct (Nat.eqb id (S i)) eqn:E;
        [apply Nat.eqb_eq in E; subst id|]
    end;
    close_consistent.
Qed.

Lemma step_consistent (s : State) (e : Event) :
  consistent s -> consistent (step s e).
Proof.
  destruct e as [| |enabled|id]; simpl.
  - apply startAnimation_consistent.
  - apply stopAnimation_consistent.
  - apply setHoverEnabled_consistent.
  - apply frameFires_consistent.
Qed.

Lemma run_consistent (events : list Event) (s : State) :
  consistent s -> consistent (run events s).
Proof.
  unfold run. revert s. induction events as [|e events IH]; intros s Hs; simpl;
    [exact Hs | apply IH, step_consistent, Hs].
Qed.

Lemma initial_consistent : consistent initial.
Proof. unfold consistent, loopPending, initial. simpl. repeat split; lia. Qed.

(** The two frame loops exclude each other: after any sequence of
    handler calls and frames from the initial state, a frame of the
    animation loop is pending exactly while animating, a frame of the
    hover loop exactly while hover is enabled and nothing animates, and
    never more than one frame in all. *)
Theorem frame_loops_exclusive (events : list Event) :
  let s := run events initial in
  List.length (pendingAnimate s) = (if isAnimating s then 1 else 0)%nat /\
  List.length (pendingHover s) =
    (if hoverEffectEnabled s && negb (isAnimating s) then 1 else 0)%nat /\
  (List.length (pendingAnimate s) + List.length (pendingHover s) <= 1)%nat.
Proof.
  intros s.
  destruct (run_consistent events initial initial_consistent) as (Ha & Hh & _).
  fold s in Ha, Hh. unfold loopPending in Ha, Hh.
  destruct (isAnimating s); simpl in *.
  - destruct Ha as (ia & _ & -> & _).
    rewrite Bool.andb_false_r in *. destruct Hh as [_ ->]. simpl.
    repeat split; lia.
  - destruct Ha as [_ ->]. rewrite Bool.andb_true_r in *.
    destruct (hoverEffectEnabled s).
    + destruct Hh as (ih & _ & -> & _). simpl. repeat split; lia.
    + destruct Hh as [_ ->]. simpl. repeat split; lia.
Qed.

End FrameLoopFacts.

(** * Further properties of the auto-motion generator *)

Section AutoMotionMore.

Import AutoMotion.
Local Open Scope R_scope.

(** Outside the random and trace patterns the generator keeps no state,
    and a pattern it does not know gives the canvas centre. *)
Theorem getAutoPosition_stateless_patterns (random : nat -> R)
    (canvasWidth canvasHeight : R) (textData : TextData)
    (cachedPoints : list Point) (time : R) (pattern : string) (s : State) :
  pattern <> "random"%string -> pattern <> "trace"%string ->
  let r := getAutoPosition random canvasWidth canvasHeight textData cachedPoints
                           time pattern s in
  snd r = s /\
  (pattern <> "sine"%string -> pattern <> "infinity"%string ->
   pattern <> "circle"%string ->
   fst r = mkPosition (canvasWidth / 2) (canvasHeight / 2)).
Proof.
  intros Hr Ht r. unfold r, getAutoPosition.
  apply String.eqb_neq in Hr, Ht. rewrite Hr, Ht.
  destruct (String.eqb pattern "sine") eqn:E1;
    [split; [reflexivity | intros H1; apply String.eqb_eq in E1; contradiction]|].
  destruct (String.eqb pattern "infinity") eqn:E2;
    [split; [reflexivity | intros _ H2; apply String.eqb_eq in E2; contradiction]|].
  destruct (String.eqb pattern "circle") eqn:E3;
    [split; [reflexivity | intros _ _ H3; apply String.eqb_eq in E3; contradiction]|].
  split; reflexivity.
Qed.

(** The circle pattern runs on the ellipse around the canvas centre with
    the half axes [a = 0.3 x width x sizeMultiplier] and
    [b = 0.25 x height x sizeMultiplier]: a circle only when the two are
    equal. *)
Theorem getAutoPosition_circle_on_ellipse (random : nat -> R)
    (canvasWidth canvasHeight : R) (textData : TextData)
    (cachedPoints : list Point) (time : R) (s : State) :
  let p := fst (getAutoPosition random canvasWidth canvasHeight textData
                                cachedPoints time "circle" s) in
  let a := canvasWidth * (3 / 10) * (autoSize textData * (1 / 10)) in
  let b := canvasHeight * (25 / 100) * (autoSize textData * (1 / 10)) in
  ((x p - canvasWidth / 2) * b) * ((x p - canvasWidth / 2) * b) +
  ((y p - canvasHeight / 2) * a) * ((y p - canvasHeight / 2) * a)
  = (a * b) * (a * b).
Proof.
  intros p a b. unfold p, getAutoPosition. simpl. fold a b.
  set (t := time * (autoSpeed textData * (3 / 10000))).
  pose proof (sin2_cos2 t) as Hsc. unfold Rsqr in Hsc.
  transitivity ((a * b) * (a * b) * (sin t * sin t + cos t * cos t)); [ring|].
  rewrite Hsc. ring.
Qed.

Lemma Rabs_sin_mult (u amplitude : R) : Rabs (sin u * amplitude) <= Rabs amplitude.
Proof.
  rewrite Rabs_mult. pose proof (SIN_bound u) as [H1 H2].
  assert (Hs : Rabs (sin u) <= 1) by (apply Rabs_le; lra).
  pose proof (Rabs_pos amplitude) as Ha.
  assert (Rabs (sin u) * Rabs amplitude <= 1 * Rabs amplitude)
    by (apply Rmult_le_compat_r; assumption).
  lra.
Qed.

(** The sine and infinity patterns stay in a box around the canvas
    centre: at most [0.35 x width x sizeMultiplier] to the side and
    [50 x sizeMultiplier] up or down for sine, and at most
    [0.3 x width x sizeMultiplier] and [0.2 x height x sizeMultiplier] for
    infinity. *)
Theorem getAutoPosition_sine_infinity_bounded (random : nat -> R)
    (canvasWidth canvasHeight : R) (textData : TextData)
    (cachedPoints : list Point) (time : R) (s : State) :
  let sizeMultiplier := autoSize textData * (1 / 10) in
  let sine := fst (getAutoPosition random canvasWidth canvasHeight textData
                                   cachedPoints time "sine" s) in
  let infinity := fst (getAutoPosition random canvasWidth canvasHeight textData
                                       cachedPoints time "infinity" s) in
  inRectangle (canvasWidth / 2) (canvasHeight / 2)
              (Rabs (canvasWidth * (35 / 100) * sizeMultiplier))
              (Rabs (50 * sizeMultiplier)) sine /\
  inRectangle (canvasWidth / 2) (canvasHeight / 2)
              (Rabs (canvasWidth * (3 / 10) * sizeMultiplier))
              (Rabs (canvasHeight * (2 / 10) * sizeMultiplier)) infinity.
Proof.
  intros sizeMultiplier sine infinity.
  unfold sine, infinity, getAutoPosition, inRectangle. simpl.
  fold sizeMultiplier.
  repeat split;
    match goal with |- Rabs (?c + ?v - ?c) <= _ =>
      replace (c + v - c) with v by ring; apply Rabs_sin_mult
    end.
Qed.

(** The sine, infinity and circle patterns are periodic: for a non-zero
    speed the position repeats after [2 pi / (autoSpeed x 0.0003)]
    milliseconds. *)
Theorem getAutoPosition_periodic (random : nat -> R)
    (canvasWidth canvasHeight : R) (textData : TextData)
    (cachedPoints : list Point) (time : R) (pattern : string) (s : State) :
  autoSpeed textData <> 0 ->
  In pattern ["sine"; "infinity"; "circle"]%string ->
  let period := 2 * PI / (autoSpeed textData * (3 / 10000)) in
  getAutoPosition random canvasWidth canvasHeight textData cachedPoints
                  (time + period) pattern s
  = getAutoPosition random canvasWidth canvasHeight textData cachedPoints
                    time pattern s.
Proof.
  intros Hsp Hin period.
  set (speed := autoSpeed textData * (3 / 10000)).
  assert (Hspeed : speed <> 0) by (unfold speed; lra).
  assert (E1 : (time + period) * speed = time * speed + 2 * INR 1 * PI).
  { unfold period. fold speed. simpl. field. exact Hspeed. }
  assert (E2 : (time + period) * speed * 2 = time * speed * 2 + 2 * INR 2 * PI).
  { unfold period. fold speed. simpl. field. exact Hspeed. }
  unfold getAutoPosition. fold speed.
  destruct Hin as [<-|[<-|[<-|[]]]]; simpl;
    rewrite ?E2, ?E1, ?sin_period, ?cos_period; reflexivity.
Qed.

Lemma roll_in_range (u centre range : R) :
  0 <= u <= 1 -> 0 <= range ->
  Rabs (centre + (u * 2 - 1) * range - centre) <= range.
Proof.
  intros [H0 H1] Hr. apply Rabs_le.
  assert (0 <= u * range) by (apply Rmult_le_pos; lra).
  assert (u * range <= 1 * range) by (apply Rmult_le_compat_r; lra).
  split; lra.
Qed.

Lemma Rabs_le_between (a b : R) : Rabs a <= b -> - b <= a <= b.
Proof.
  intros Hab. unfold Rabs in Hab. destruct (Rcase_abs a); lra.
Qed.

Lemma ease_in_range (current target centre range ease : R) :
  0 <= ease <= 1 ->
  Rabs (current - centre) <= range -> Rabs (target - centre) <= range ->
  Rabs (current + (target - current) * ease - centre) <= range.
Proof.
  intros [H0 H1] Hc Ht.
  apply Rabs_le. apply Rabs_le_between in Hc, Ht.
  destruct Hc as [Hc1 Hc2], Ht as [Ht1 Ht2].
  assert (0 <= (1 - ease) * (range - (current - centre)))
    by (apply Rmult_le_pos; lra).
  assert (0 <= (1 - ease) * (range + (current - centre)))
    by (apply Rmult_le_pos; lra).
  assert (0 <= ease * (range - (target - centre)))
    by (apply Rmult_le_pos; lra).
  assert (0 <= ease * (range + (target - centre)))
    by (apply Rmult_le_pos; lra).
  split; lra.
Qed.

(** The random pattern never leaves its rectangle.  When [Math.random]
    returns numbers of [[0, 1]], the ranges are not negative and the
    easing rate [0.02 + autoSpeed x 0.008] is between 0 and 1, a call
    from a state that is not initialised, or whose current and target
    positions are within [0.4 x width x sizeMultiplier] and
    [0.35 x height x sizeMultiplier] of the centre, returns a position
    within these ranges and leaves an initialised state of the same
    kind. *)
Theorem getAutoPosition_random_stays_in_rectangle (random : nat -> R)
    (canvasWidth canvasHeight : R) (textData : TextData)
    (cachedPoints : list Point) (time : R) (s : State) :
  let centerX := canvasWidth / 2 in
  let centerY := canvasHeight / 2 in
  let rangeX := canvasWidth * (4 / 10) * (autoSize textData * (1 / 10)) in
  let rangeY := canvasHeight * (35 / 100) * (autoSize textData * (1 / 10)) in
  (forall k, 0 <= random k <= 1) ->
  0 <= rangeX -> 0 <= rangeY ->
  0 <= 2 / 100 + autoSpeed textData * (8 / 1000) <= 1 ->
  (randomInitialized s = true ->
   inRectangle centerX centerY rangeX rangeY (randomCurrent s) /\
   inRectangle centerX centerY rangeX rangeY (randomTarget s)) ->
  let r := getAutoPosition random canvasWidth canvasHeight textData cachedPoints
                           time "random" s in
  inRectangle centerX centerY rangeX rangeY (fst r) /\
  randomInitialized (snd r) = true /\
  inRectangle centerX centerY rangeX rangeY (randomCurrent (snd r)) /\
  inRectangle centerX centerY rangeX rangeY (randomTarget (snd r)).
Proof.
  intros centerX centerY rangeX rangeY Hrand Hrx Hry Hease Hinv r.
  unfold r, getAutoPosition. simpl String.eqb. cbv iota.
  unfold randomStep. fold centerX centerY rangeX rangeY.
  set (ease := 2 / 100 + autoSpeed textData * (8 / 1000)) in *.
  assert (Hroll : forall s0,
            inRectangle centerX centerY rangeX rangeY
              (randomTarget (rollTarget random centerX centerY rangeX rangeY s0))).
  { intros s0. unfold rollTarget, inRectangle. simpl.
    split; apply roll_in_range; auto. }
  set (s1 := if negb (randomInitialized s) then _ else s).
  assert (H1 : randomInitialized s1 = true /\
               inRectangle centerX centerY rangeX rangeY (randomCurrent s1) /\
               inRectangle centerX centerY rangeX rangeY (randomTarget s1)).
  { unfold s1. destruct (randomInitialized s) eqn:Ei; simpl.
    - destruct (Hinv eq_refl) as [Hc Ht]. split; [exact Ei|]. split; assumption.
    - split; [reflexivity|]. split.
      + unfold inRectangle. simpl.
        replace (centerX - centerX) with 0 by ring.
        replace (centerY - centerY) with 0 by ring.
        rewrite Rabs_R0. split; assumption.
      + apply (Hroll (setCurrent (mkPosition centerX centerY) s)). }
  destruct H1 as (Hi1 & Hc1 & Ht1).
  set (s2 := if intervalPassed_dec _ _ _ then _ else s1).
  assert (H2 : randomInitialized s2 = true /\
               randomCurrent s2 = randomCurrent s1 /\
               inRectangle centerX centerY rangeX rangeY (randomTarget s2)).
  { unfold s2. destruct (intervalPassed_dec _ _ _); simpl.
    - split; [exact Hi1|]. split; [reflexivity|]. apply (Hroll s1).
    - split; [exact Hi1|]. split; [reflexivity | exact Ht1]. }
  destruct H2 as (Hi2 & Ec2 & Ht2).
  assert (Hnew : inRectangle centerX centerY rangeX rangeY
            (mkPosition
               (x (randomCurrent s2) + (x (randomTarget s2) - x (randomCurrent s2)) * ease)
               (y (randomCurrent s2) + (y (randomTarget s2) - y (randomCurrent s2)) * ease))).
  { rewrite Ec2. destruct Hc1 as [Hcx Hcy], Ht2 as [Htx Hty].
    unfold inRectangle. simpl. split; apply ease_in_range; assumption. }
  simpl. repeat split; try apply Hnew; try exact Hi2; apply Ht2.
Qed.

(** The trace pattern walks the cached points: with a non-empty cache the
    new index is [(traceIndex + pointsPerFrame) mod length] with at least
    one point per frame, it stays inside the cache, and the position
    returned is the pixel of the cached point at that index, which undoes
    the conversion of [getTextPoints]: the scene point
    [(px - width / 2, height / 2 - py)] gives the pixel [(px, py)]. *)
Theorem getAutoPosition_trace_pixel_of_point (random : nat -> R)
    (canvasWidth canvasHeight : R) (textData : TextData)
    (cachedPoints : list Point) (time : R) (s : State) :
  cachedPoints <> [] ->
  let r := getAutoPosition random canvasWidth canvasHeight textData cachedPoints
                           time "trace" s in
  let pointsPerFrame := Z.to_nat (Z.max 1 (Int_part (autoSpeed textData * 2))) in
  (1 <= pointsPerFrame)%nat /\
  traceIndex (snd r) =
    ((traceIndex s + pointsPerFrame) mod List.length cachedPoints)%nat /\
  (traceIndex (snd r) < List.length cachedPoints)%nat /\
  exists point,
    nth_error cachedPoints (traceIndex (snd r)) = Some point /\
    forall pixelX pixelY,
      AutoMotion.px point = pixelX - canvasWidth / 2 ->
      AutoMotion.py point = canvasHeight / 2 - pixelY ->
      fst r = mkPosition pixelX pixelY.
Proof.
  intros Hne r pointsPerFrame.
  split; [unfold pointsPerFrame; lia|].
  unfold r, getAutoPosition. simpl String.eqb. cbv iota.
  destruct (traceStep_index_in_range canvasWidth canvasHeight textData cachedPoints
              (mkPosition (canvasWidth / 2) (canvasHeight / 2)) s Hne)
    as (Hlt & point & Hnth & Hpos).
  split.
  - unfold traceStep. destruct cachedPoints as [|p0 rest]; [congruence|].
    change (Nat.ltb 0 (List.length (p0 :: rest))) with true. cbv iota.
    fold pointsPerFrame.
    match goal with |- context [nth_error (p0 :: rest) ?k] =>
      destruct (nth_error (p0 :: rest) k); reflexivity
    end.
  - split; [exact Hlt|]. exists point. split; [exact Hnth|].
    intros pixelX pixelY Ex Ey. rewrite Hpos, Ex, Ey. f_equal; lra.
Qed.

End AutoMotionMore.

(** * Further properties of the shape parser *)

Section ParserMore.

Import SVGShapeParser.
Local Open Scope string_scope.
Context `{NumberText} `{NumberCoercion}.

Lemma pathOf_d_nonempty (chain : list Element) (p : PathDescriptor) :
  In p (pathOf chain) -> d p <> "".
Proof.
  unfold pathOf. destruct chain as [|element up]; [intros []|].
  destruct (elementToPath element) as [[|c r]|]; simpl.
  - intros Hf; destruct Hf.
  - intros [<-|Hf]; [simpl; discriminate | destruct Hf].
  - intros Hf; destruct Hf.
Qed.

(** Every path descriptor that [extractPaths] returns has non-empty path
    data. *)
Theorem extractPaths_path_data_nonempty (svgElement : Element) :
  Forall (fun p => d p <> "") (extractPaths svgElement).
Proof.
  apply Forall_forall. intros p. unfold extractPaths. intros Hin.
  apply in_flat_map in Hin. destruct Hin as (tag & _ & Hin).
  apply in_flat_map in Hin. destruct Hin as (chain & _ & Hin).
  apply (pathOf_d_nonempty chain p Hin).
Qed.

(** The elements that are skipped: a polygon or polyline whose [points]
    is missing, empty or has fewer than four parts when it is trimmed and
    split at commas and white space (the no-break space included), and a
    path whose [d] is missing or empty, add no path descriptor. *)
Theorem pathOf_skips_without_geometry (element : Element) (ancestors : list Element) :
  (In (toLowerCase (tagName element)) ["polygon"; "polyline"] /\
   match getAttribute element "points" with
   | Some (String c r) =>
       (List.length (splitSep false "" (trim (String c r))) < 4)%nat
   | _ => True
   end) \/
  (toLowerCase (tagName element) = "path" /\
   (getAttribute element "d" = None \/ getAttribute element "d" = Some "")) ->
  pathOf (element :: ancestors) = [].
Proof.
  intros Hcase. unfold pathOf.
  assert (E : truthyStr (elementToPath element) = false).
  { unfold elementToPath. destruct Hcase as [[Htag Hp]|[Htag Hd]].
    - assert (Ep : forall close, polygonToPath element close = None).
      { intros close. unfold polygonToPath.
        destruct (getAttribute element "points") as [[|c r]|]; try reflexivity.
        apply Nat.ltb_lt in Hp. rewrite Hp. reflexivity. }
      destruct Htag as [E|[E|[]]]; rewrite <- E; simpl String.eqb; cbv iota;
        simpl orb; cbv iota; rewrite Ep; reflexivity.
    - rewrite Htag. simpl String.eqb. cbv iota.
      destruct Hd as [-> | ->]; reflexivity. }
  rewrite E. reflexivity.
Qed.

(** A polygon is its polyline, closed: the path data of an element read
    as a polygon is the path data of the same element read as a polyline
    followed by [" Z"], and the one is missing when the other is. *)
Theorem polygonToPath_closes_polyline (element : Element) :
  polygonToPath element true =
  option_map (fun d => d ++ " Z") (polygonToPath element false).
Proof.
  unfold polygonToPath.
  destruct (getAttribute element "points") as [[|c r]|]; try reflexivity.
  destruct (List.length _ <? 4)%nat; [reflexivity|].
  destruct (splitSep false "" (trim (String c r))) as [|p0 [|p1 rest]];
    reflexivity.
Qed.

Lemma collectTransforms_acc (chain : list Element) (acc : list string) :
  collectTransforms chain acc
  = (rev (flat_map ownTransform (belowSvg chain)) ++ acc)%list.
Proof.
  revert acc. induction chain as [|current up IH]; intros acc; simpl.
  - reflexivity.
  - destruct (String.eqb (tagName current) "svg"); [reflexivity|].
    simpl. unfold ownTransform at 1.
    destruct (getAttribute current "transform") as [[|c r]|]; rewrite IH; simpl.
    + reflexivity.
    + rewrite <- app_assoc. reflexivity.
    + reflexivity.
Qed.

(** The transform of a path is the non-empty [transform] attributes of the
    element and of its ancestors below the nearest [svg] element, joined
    by single spaces with the outermost first. *)
Theorem getComputedTransform_outermost_first (chain : list Element) :
  getComputedTransform chain
  = join (rev (flat_map ownTransform (belowSvg chain))).
Proof.
  unfold getComputedTransform. rewrite collectTransforms_acc, app_nil_r.
  reflexivity.
Qed.

(** Without a [viewBox] attribute (or with an empty one) the view box
    starts at the origin and its width and height are numbers other than
    zero: the number that [parseFloat] reads from the [width] and
    [height] attribute where that is a number other than zero, and 100
    where the attribute is missing, not a number or zero. *)
Theorem parseViewBox_fallback_never_zero (svg : Element) :
  getAttribute svg "viewBox" = None \/ getAttribute svg "viewBox" = Some "" ->
  let vb := parseViewBox svg in
  let width := parseFloat (getAttribute svg "width") in
  let height := parseFloat (getAttribute svg "height") in
  vbMinX vb = Some (Num 0) /\ vbMinY vb = Some (Num 0) /\
  (exists w, vbWidth vb = Some (Num w) /\ ~ (w == 0)%Q /\
     (truthyNum width = true -> width = Num w) /\
     (truthyNum width = false -> w = 100%Q)) /\
  (exists h, vbHeight vb = Some (Num h) /\ ~ (h == 0)%Q /\
     (truthyNum height = true -> height = Num h) /\
     (truthyNum height = false -> h = 100%Q)).
Proof.
  intros Hvb vb width height.
  assert (Hor : forall a, exists q, jsOr a (Num 100) = Num q /\ ~ (q == 0)%Q /\
                           (truthyNum a = true -> a = Num q) /\
                           (truthyNum a = false -> q = 100%Q)).
  { intros a. unfold jsOr. destruct (truthyNum a) eqn:Et.
    - destruct a as [|q]; [discriminate Et|]. exists q. split; [reflexivity|].
      split; [|split; [reflexivity | discriminate]]. simpl in Et. intros Hq.
      apply Qeq_bool_iff in Hq. rewrite Hq in Et. discriminate Et.
    - exists 100%Q. split; [reflexivity|].
      split; [discriminate | split; [discriminate | reflexivity]]. }
  assert (Evb : vb = mkViewBoxValue (Some (Num 0)) (Some (Num 0))
            (Some (jsOr width (Num 100))) (Some (jsOr height (Num 100)))).
  { unfold vb, parseViewBox. destruct Hvb as [-> | ->]; reflexivity. }
  rewrite Evb. simpl. split; [reflexivity|]. split; [reflexivity|].
  split.
  - destruct (Hor width) as (q & E & Hq & Ht & Hd).
    exists q. rewrite E. repeat split; assumption.
  - destruct (Hor height) as (q & E & Hq & Ht & Hd).
    exists q. rewrite E. repeat split; assumption.
Qed.

End ParserMore.

(** * The further theorems at concrete inputs *)

Section MoreInstances.

Import SVGCoordinateNormalizer SVGPointSampler SVGPathSampling Raster.

(** The lower right corner of the view box [0 0 100 50], stretched onto
    an 800 x 600 canvas with padding 0.1. *)
Lemma normalize_stretch_fills_padded_canvas_example :
  let vb := ViewBox.mk 0 0 100 50 in
  let cs := Size.mk 800 600 in
  let options := mkOptions (Some "stretch"%string) (Some (1 # 10)) None None in
  let p := P2.mk (0 + 1 * 100) (0 + 1 * 50) in
  exists q, normalize [p] vb cs options = [q] /\
    P3.eq q (P3.mk (0 / 100 * 800 - 800 * (1 - (1 # 10) * 2) / 2
                    + 1 * (800 * (1 - (1 # 10) * 2)))
                   (0 / 100 * 600 + 600 * (1 - (1 # 10) * 2) / 2
                    - 1 * (600 * (1 - (1 # 10) * 2))) 0).
Proof.
  apply (normalize_stretch_fills_padded_canvas (ViewBox.mk 0 0 100 50)
           (Size.mk 800 600)
           (mkOptions (Some "stretch"%string) (Some (1 # 10)) None None) 1 1).
  - reflexivity.
  - vm_compute; discriminate.
  - vm_compute; discriminate.
Defined.

(** Cover mode keeps the shape. *)
Lemma normalize_uniform_unless_stretch_example :
  let vb := ViewBox.mk 0 0 100 50 in
  let cs := Size.mk 800 600 in
  let options := mkOptions (Some "cover"%string) None None None in
  exists s : Q, forall (p q : P2.t) (o o' : P3.t),
    normalize [p] vb cs options = [o] ->
    normalize [q] vb cs options = [o'] ->
    (P3.x o - P3.x o') * (P3.x o - P3.x o') +
    (P3.y o - P3.y o') * (P3.y o - P3.y o') ==
    s * s * distSq p q.
Proof.
  apply (normalize_uniform_unless_stretch (ViewBox.mk 0 0 100 50) (Size.mk 800 600)
           (mkOptions (Some "cover"%string) None None None)).
  - vm_compute; discriminate.
  - vm_compute; discriminate.
  - discriminate.
Defined.

(** The centre of the view box [0 0 100 50] with an offset of 10 % and
    -5 %. *)
Lemma normalize_centre_to_offset_example :
  let vb := ViewBox.mk 0 0 100 50 in
  let cs := Size.mk 800 600 in
  let options := mkOptions None None (Some 10) (Some (-5)) in
  exists q, normalize [P2.mk (0 + 100 / 2) (0 + 50 / 2)] vb cs options = [q] /\
    P3.eq q (P3.mk (10 / 100 * 800) (-5 / 100 * 600) 0).
Proof.
  apply (normalize_centre_to_offset (ViewBox.mk 0 0 100 50) (Size.mk 800 600)
           (mkOptions None None (Some 10) (Some (-5)))).
  - vm_compute; discriminate.
  - vm_compute; discriminate.
Defined.

(** The square, outline and fill, sampled every 3 units. *)
Lemma sampleAllPaths_merged_spread_example :
  let paths := [SVGShapeParser.mkPath "M0,0 L10,0 L10,10 L0,10 Z" "" true true] in
  let merged := sampleAllPaths paths 3 (mkSampleOptions None (Some true) None) in
  let raw := sampleAllPaths paths 3 (mkSampleOptions None (Some true) (Some false)) in
  Subseq merged raw /\ Spread ((3 / 2) * (3 / 2)) merged.
Proof.
  apply (sampleAllPaths_merged_spread
           [SVGShapeParser.mkPath "M0,0 L10,0 L10,10 L0,10 Z" "" true true]
           3 None (Some true)).
  reflexivity.
Defined.

(** The view box [0 0 100 50] covers the padded 800 x 600 canvas. *)
Lemma normalize_cover_covers_padded_canvas_example :
  let vb := ViewBox.mk 0 0 100 50 in
  let cs := Size.mk 800 600 in
  let options := mkOptions (Some "cover"%string) None None None in
  let out := normalize [P2.mk 0 0; P2.mk (0 + 100) (0 + 50)] vb cs options in
  800 * (1 - (1 # 10) * 2) <= bboxWidth out /\
  600 * (1 - (1 # 10) * 2) <= bboxHeight out.
Proof.
  apply (normalize_cover_covers_padded_canvas (ViewBox.mk 0 0 100 50)
           (Size.mk 800 600) (mkOptions (Some "cover"%string) None None None)).
  - reflexivity.
  - reflexivity.
  - reflexivity.
Defined.

(** The square of side 10 sampled every 3 units: the walk of length 40
    starts and ends at the corner [(0, 0)]. *)
Lemma samplePath_from_start_to_end_example :
  exists dists : list Q,
    samplePath "M0,0 L10,0 L10,10 L0,10 Z" "" 3
      = map (getPointAtLength "M0,0 L10,0 L10,10 L0,10 Z" "") dists /\
    hd_error dists = Some 0 /\
    last dists 0 == getTotalLength "M0,0 L10,0 L10,10 L0,10 Z" "" /\
    Forall (fun dist => 0 <= dist <= getTotalLength "M0,0 L10,0 L10,10 L0,10 Z" "")
           dists.
Proof.
  apply (samplePath_from_start_to_end "M0,0 L10,0 L10,10 L0,10 Z" "" 3).
  - reflexivity.
  - vm_compute; discriminate.
Defined.

(** The second point of the second row of the fill grid of the square,
    for the spacing 4. *)
Lemma sampleFill_in_fill_on_honeycomb_example :
  let p := P2.mk (0 + inject_Z (Z.of_nat (1 mod 2)) * (4 / 2) + 4) (0 + 4) in
  let bbox := getBBox "M0,0 L10,0 L10,10 L0,10 Z" "" in
  isPointInFill "M0,0 L10,0 L10,10 L0,10 Z" "" (P2.x p) (P2.y p) = true /\
  (bx bbox <= P2.x p <= bx bbox + bwidth bbox) /\
  (by_ bbox <= P2.y p <= by_ bbox + bheight bbox) /\
  exists row col : nat,
    P2.y p == by_ bbox + inject_Z (Z.of_nat row) * 4 /\
    P2.x p == bx bbox + inject_Z (Z.of_nat (row mod 2)) * (4 / 2)
              + inject_Z (Z.of_nat col) * 4.
Proof.
  apply (sampleFill_in_fill_on_honeycomb "M0,0 L10,0 L10,10 L0,10 Z" "" 4
           (P2.mk (0 + inject_Z (Z.of_nat (1 mod 2)) * (4 / 2) + 4) (0 + 4))).
  - reflexivity.
  - vm_compute. right. right. right. right. left. reflexivity.
Defined.

(** A path with and without [fill="none"]. *)
Lemma sampleAllPaths_ignores_fill_and_stroke_example :
  sampleAllPaths [SVGShapeParser.mkPath "M0,0 L10,0 L10,10 L0,10 Z" "" true true]
                 3 (mkSampleOptions None (Some true) None)
  = sampleAllPaths [SVGShapeParser.mkPath "M0,0 L10,0 L10,10 L0,10 Z" "" false true]
                   3 (mkSampleOptions None (Some true) None).
Proof.
  apply (sampleAllPaths_ignores_fill_and_stroke
           [SVGShapeParser.mkPath "M0,0 L10,0 L10,10 L0,10 Z" "" true true]
           [SVGShapeParser.mkPath "M0,0 L10,0 L10,10 L0,10 Z" "" false true]
           3 (mkSampleOptions None (Some true) None)).
  reflexivity.
Defined.



End MoreInstances.

Section MoreParserInstances.

Import SVGShapeParser.
Local Open Scope string_scope.

(** The scenario of the specification, with the runtime for whole
    numbers: a rect of side 10 at the origin. *)
Example rectToPath_square :
  rectToPath (Elem "rect" [("x", "0"); ("y", "0"); ("width", "10"); ("height", "10")] [])
  = "M0,0 L10,0 L10,10 L0,10 Z".
Proof. vm_compute. reflexivity. Qed.

(** A triangle inside two nested groups. *)
Example extractPaths_nested_groups :
  extractPaths
    (Elem "svg" []
       [Elem "g" [("transform", "translate(5,5)")]
          [Elem "g" [("transform", "scale(2)")]
             [Elem "polygon" [("points", "0,0 10,0 5,8"); ("fill", "none")] []]]])
  = [mkPath "M0,0 L10,0 L5,8 Z" "translate(5,5) scale(2)" false true].
Proof. vm_compute. reflexivity. Qed.

(** A polygon with a single point. *)
Lemma pathOf_skips_without_geometry_example :
  pathOf [Elem "polygon" [("points", "10,20")] []; Elem "svg" [] []] = [].
Proof.
  apply (pathOf_skips_without_geometry
           (Elem "polygon" [("points", "10,20")] []) [Elem "svg" [] []]).
  left. split; [left; reflexivity | vm_compute; lia].
Defined.

(** A no-break space between two pairs separates them as a space does:
    the polygon has four parts and is kept. *)
Example polygonToPath_no_break_space :
  polygonToPath
    (Elem "polygon"
       [("points", "0,0" ++ String (Ascii.ascii_of_nat 160) "10,0")] []) false
  = Some "M0,0 L10,0".
Proof. vm_compute. reflexivity. Qed.

(** An [svg] element with a width and no height. *)
Lemma parseViewBox_fallback_never_zero_example :
  let svg := Elem "svg" [("width", "640")] [] in
  let vb := parseViewBox svg in
  let width := parseFloat (getAttribute svg "width") in
  let height := parseFloat (getAttribute svg "height") in
  vbMinX vb = Some (Num 0) /\ vbMinY vb = Some (Num 0) /\
  (exists w, vbWidth vb = Some (Num w) /\ ~ (w == 0)%Q /\
     (truthyNum width = true -> width = Num w) /\
     (truthyNum width = false -> w = 100%Q)) /\
  (exists h, vbHeight vb = Some (Num h) /\ ~ (h == 0)%Q /\
     (truthyNum height = true -> height = Num h) /\
     (truthyNum height = false -> h = 100%Q)).
Proof.
  apply (parseViewBox_fallback_never_zero (Elem "svg" [("width", "640")] [])).
  left. reflexivity.
Defined.

End MoreParserInstances.

Section MoreRealInstances.

Local Open Scope R_scope.

(** The point under the cursor, with intensity 2. *)
Lemma getHoverScale3D_at_cursor_example :
  let textData := Hover.mkTextData true 100 2 (Some 400) (Some 300) in
  let s := Hover.getHoverScale3D (Hover.orthographic 800 600) 800 600 textData 0 0 in
  (Hover.hoverIntensity textData >= 1 -> s = Hover.hoverIntensity textData) /\
  (Hover.hoverIntensity textData < 1 ->
   s = Rmax (1 / 10) (1 / (Rabs (Hover.hoverIntensity textData) + 1))).
Proof.
  apply (getHoverScale3D_at_cursor (Hover.orthographic 800 600) 800 600
           (Hover.mkTextData true 100 2 (Some 400) (Some 300)) 0 0 400 300).
  - reflexivity.
  - reflexivity.
  - reflexivity.
  - simpl. lra.
  - unfold Hover.screenDistance. simpl.
    replace ((0 / (800 / 2) + 1) / 2 * 800 - 400) with 0 by lra.
    replace ((- (0 / (600 / 2)) + 1) / 2 * 600 - 300) with 0 by lra.
    rewrite Rmult_0_l, Rplus_0_l. apply sqrt_0.
Defined.

(** An 800 x 600 canvas. *)
Lemma screenDistance_orthographic_pixels_example :
  Hover.screenDistance (Hover.orthographic 800 600) 800 600 300 0 400 300
  = sqrt ((300 + 800 / 2 - 400) * (300 + 800 / 2 - 400) +
          (600 / 2 - 0 - 300) * (600 / 2 - 0 - 300)).
Proof.
  apply (screenDistance_orthographic_pixels 800 600 300 0 400 300); lra.
Defined.

(** The second of two particles. *)
Lemma updateInstancedMesh_per_particle_example :
  let textData := Hover.mkTextData true 100 2 (Some 400) (Some 300) in
  let particles := [Instances.mkParticle 0 0 0 1; Instances.mkParticle 10 20 0 1] in
  let p := Instances.mkParticle 10 20 0 1 in
  exists transforms t,
    Instances.updateInstancedMesh true (Hover.orthographic 800 600) 800 600
      textData 5 particles 0 = Some transforms /\
    List.length transforms = List.length particles /\
    nth_error transforms 1 = Some t /\
    Instances.position t = (Instances.x p, Instances.y p, Instances.z p) /\
    Instances.rotation t = (0 + Instances.phase 1, 0 + Instances.phase 1, 0) /\
    0 <= Instances.phase 1 < 2 * PI /\
    Instances.scale t = 5 * (Instances.baseScale p *
      Hover.getHoverScale3D (Hover.orthographic 800 600) 800 600 textData
                            (Instances.x p) (Instances.y p)).
Proof.
  apply (updateInstancedMesh_per_particle (Hover.orthographic 800 600) 800 600
           (Hover.mkTextData true 100 2 (Some 400) (Some 300)) 5 0
           [Instances.mkParticle 0 0 0 1; Instances.mkParticle 10 20 0 1]
           1 (Instances.mkParticle 10 20 0 1)).
  reflexivity.
Defined.

(** The sine pattern keeps the state, and a pattern without a case gives
    the centre. *)
Lemma getAutoPosition_stateless_patterns_example :
  let r := AutoMotion.getAutoPosition (fun _ => 0) 800 600
             (AutoMotion.mkTextData 1 5) [] 16 "spiral" AutoMotion.initialState in
  snd r = AutoMotion.initialState /\
  ("spiral" <> "sine" -> "spiral" <> "infinity" -> "spiral" <> "circle" ->
   fst r = AutoMotion.mkPosition (800 / 2) (600 / 2))%string.
Proof.
  apply (getAutoPosition_stateless_patterns (fun _ => 0) 800 600
           (AutoMotion.mkTextData 1 5) [] 16 "spiral" AutoMotion.initialState);
    discriminate.
Defined.

(** The infinity pattern at speed 1. *)
Lemma getAutoPosition_periodic_example :
  AutoMotion.getAutoPosition (fun _ => 0) 800 600 (AutoMotion.mkTextData 1 5) []
    (16 + 2 * PI / (1 * (3 / 10000))) "infinity" AutoMotion.initialState
  = AutoMotion.getAutoPosition (fun _ => 0) 800 600 (AutoMotion.mkTextData 1 5) []
      16 "infinity" AutoMotion.initialState.
Proof.
  apply (getAutoPosition_periodic (fun _ => 0) 800 600 (AutoMotion.mkTextData 1 5) []
           16 "infinity" AutoMotion.initialState).
  - simpl. lra.
  - right. left. reflexivity.
Defined.

(** The first call from the initial state, with [Math.random] returning
    one half. *)
Lemma getAutoPosition_random_stays_in_rectangle_example :
  let rangeX := 800 * (4 / 10) * (5 * (1 / 10)) in
  let rangeY := 600 * (35 / 100) * (5 * (1 / 10)) in
  let r := AutoMotion.getAutoPosition (fun _ => 1 / 2) 800 600
             (AutoMotion.mkTextData 1 5) [] 16 "random" AutoMotion.initialState in
  AutoMotion.inRectangle (800 / 2) (600 / 2) rangeX rangeY (fst r) /\
  AutoMotion.randomInitialized (snd r) = true /\
  AutoMotion.inRectangle (800 / 2) (600 / 2) rangeX rangeY
    (AutoMotion.randomCurrent (snd r)) /\
  AutoMotion.inRectangle (800 / 2) (600 / 2) rangeX rangeY
    (AutoMotion.randomTarget (snd r)).
Proof.
  apply (getAutoPosition_random_stays_in_rectangle (fun _ => 1 / 2) 800 600
           (AutoMotion.mkTextData 1 5) [] 16 AutoMotion.initialState).
  - intros k. lra.
  - simpl. lra.
  - simpl. lra.
  - simpl. lra.
  - intros E. discriminate E.
Defined.

(** Two cached points, the pixels [(100, 50)] and [(101, 50)] of an
    800 x 600 canvas. *)
Lemma getAutoPosition_trace_pixel_of_point_example :
  let cachedPoints := [AutoMotion.mkPoint (100 - 800 / 2) (600 / 2 - 50) 0;
                       AutoMotion.mkPoint (101 - 800 / 2) (600 / 2 - 50) 0] in
  let r := AutoMotion.getAutoPosition (fun _ => 0) 800 600
             (AutoMotion.mkTextData 1 5) cachedPoints 16 "trace"
             AutoMotion.initialState in
  let pointsPerFrame := Z.to_nat (Z.max 1 (Int_part (1 * 2))) in
  (1 <= pointsPerFrame)%nat /\
  AutoMotion.traceIndex (snd r) =
    ((0 + pointsPerFrame) mod List.length cachedPoints)%nat /\
  (AutoMotion.traceIndex (snd r) < List.length cachedPoints)%nat /\
  exists point,
    nth_error cachedPoints (AutoMotion.traceIndex (snd r)) = Some point /\
    forall pixelX pixelY,
      AutoMotion.px point = pixelX - 800 / 2 ->
      AutoMotion.py point = 600 / 2 - pixelY ->
      fst r = AutoMotion.mkPosition pixelX pixelY.
Proof.
  apply (getAutoPosition_trace_pixel_of_point (fun _ => 0) 800 600
           (AutoMotion.mkTextData 1 5)
           [AutoMotion.mkPoint (100 - 800 / 2) (600 / 2 - 50) 0;
            AutoMotion.mkPoint (101 - 800 / 2) (600 / 2 - 50) 0]
           16 AutoMotion.initialState).
  discriminate.
Defined.

End MoreRealInstances.
